(** * citation-docket: dockets of Philippine Supreme Court decisions

    A shallow embedding of the docket model
    ([citation_utils/dockets/models/docket_model.py] and
    [citation_docket/regexes/models/docket_model.py]) and of the
    Administrative Matter pattern
    ([citation_docket/regexes/constructed_am.py]).

    Python [str] values are modelled as [string]: sequences of code points
    below 256.  [None] is the [None] of an [option]. *)

From Stdlib Require Import ZArith Ascii String List Bool Lia.
From stdpp Require Import base option list strings gmap.

Local Open Scope stdpp_scope.

(** ** Python string primitives *)

Module Str.

(** [bool(s)] for a [str]: the empty string is falsy. *)
Definition truthy (s : string) : bool :=
  match s with
  | EmptyString => false
  | String _ _ => true
  end.

(** [bool(x)] for a value of type [str | None]. *)
Definition truthy_opt (o : option string) : bool :=
  match o with
  | Some s => truthy s
  | None => false
  end.

(** [s.startswith(p)] *)
Fixpoint startswith (p s : string) : bool :=
  match p with
  | EmptyString => true
  | String a p' =>
      match s with
      | EmptyString => false
      | String b s' => if Ascii.eqb a b then startswith p' s' else false
      end
  end.

(** [s[n:]] *)
Fixpoint drop (n : nat) (s : string) : string :=
  match n with
  | O => s
  | S n' =>
      match s with
      | EmptyString => EmptyString
      | String _ s' => drop n' s'
      end
  end.

(** [sep in s]: [sep] occurs in [s] as a substring. *)
Fixpoint contains (sep s : string) : bool :=
  if startswith sep s then true
  else
    match s with
    | EmptyString => false
    | String _ s' => contains sep s'
    end.

(** The text before and after the leftmost occurrence of [sep] in [s]
    (the first and last components of [s.partition(sep)] when [sep]
    occurs). *)
Fixpoint cut (sep s : string) : option (string * string) :=
  if startswith sep s then Some (EmptyString, drop (String.length sep) s)
  else
    match s with
    | EmptyString => None
    | String c s' =>
        match cut sep s' with
        | Some (before, after) => Some (String c before, after)
        | None => None
        end
    end.

(** [s.split(sep)] for a non-empty [sep]: cut at every occurrence of
    [sep], leftmost first, without overlap.  Every cut removes at least
    one character, so [String.length s] rounds are enough. *)
Fixpoint split_rounds (n : nat) (sep s : string) : list string :=
  match n with
  | O => [s]
  | S n' =>
      match cut sep s with
      | Some (before, after) => before :: split_rounds n' sep after
      | None => [s]
      end
  end.

Definition split (sep s : string) : list string :=
  split_rounds (String.length s) sep s.

(** [sep.join(parts)] *)
Fixpoint join (sep : string) (parts : list string) : string :=
  match parts with
  | [] => EmptyString
  | [p] => p
  | p :: rest => p +:+ sep +:+ join sep rest
  end.

Definition is_upper (c : ascii) : bool :=
  let n := nat_of_ascii c in
  (((65 <=? n) && (n <=? 90))
   || ((192 <=? n) && (n <=? 222) && negb (n =? 215)))%nat.

Definition is_lower (c : ascii) : bool :=
  let n := nat_of_ascii c in
  (((97 <=? n) && (n <=? 122))
   || ((224 <=? n) && (n <=? 254) && negb (n =? 247)))%nat.

(** [c.lower()] on the code points below 256: the letters A-Z and the
    Latin-1 capitals move 32 places up. *)
Definition lower_char (c : ascii) : ascii :=
  if is_upper c then ascii_of_nat (nat_of_ascii c + 32) else c.

(** The capital of a small letter, when it is one code point below 256
    (a-z and the Latin-1 small letters from 224 to 254); the other code
    points are left as they are.  It gives the other case of a character
    to the sets of [re]. *)
Definition capital (c : ascii) : ascii :=
  if is_lower c then ascii_of_nat (nat_of_ascii c - 32) else c.

(** [c.upper()]: the capital of a letter; for the sharp s (223) the two
    letters SS. *)
Definition upper_char (c : ascii) : string :=
  if (nat_of_ascii c =? 223)%nat then String "S" (String "S" EmptyString)
  else String (capital c) EmptyString.

(** The capitals of the micro sign (181) and of the y with diaeresis (255)
    are the code points 924 and 376, which a [string] does not hold.
    [upper] writes them as 181 and 255, which are the capitals of no
    character, so that it tells two texts apart exactly when [str.upper]
    does; and a statement about the text that [upper] gives asks that its
    argument has neither ([upper_stays]). *)
Definition upper_stays_char (c : ascii) : bool :=
  negb ((nat_of_ascii c =? 181)%nat || (nat_of_ascii c =? 255)%nat).

Fixpoint map (f : ascii -> ascii) (s : string) : string :=
  match s with
  | EmptyString => EmptyString
  | String c s' => String (f c) (map f s')
  end.

Definition lower : string -> string := map lower_char.

(** [s.upper()] *)
Fixpoint upper (s : string) : string :=
  match s with
  | EmptyString => EmptyString
  | String c s' => upper_char c +:+ upper s'
  end.

Fixpoint forallb (f : ascii -> bool) (s : string) : bool :=
  match s with
  | EmptyString => true
  | String c s' => f c && forallb f s'
  end.

Definition upper_stays (s : string) : bool := forallb upper_stays_char s.

End Str.

(** ** The docket model: derived identifiers *)

Module Serial.

(** The separators of [Docket.first_id], in the order of the source. *)
Definition separators : list string :=
  ["/"; ","; ";"; " and "; " AND "; "&"].

(** The local helper of [first_id]:
    [text.split(char)[0] if char in text else None]. *)
Definition first_exists (char text : string) : option string :=
  if Str.contains char text then head (Str.split char text) else None.

(** The loop of [first_id] over a list of separators: the first separator
    whose [first_exists] is truthy decides; [ids] when the list runs out. *)
Fixpoint first_id_scan (chars : list string) (ids : string) : string :=
  match chars with
  | [] => ids
  | char :: rest =>
      match first_exists char ids with
      | Some res => if Str.truthy res then res else first_id_scan rest ids
      | None => first_id_scan rest ids
      end
  end.

Definition first_id (ids : string) : string := first_id_scan separators ids.

(** [first_id] as the documentation words it: the first separator of the
    list that occurs in [ids] decides, and the result is the text before
    it. *)
Fixpoint first_id_first_found (chars : list string) (ids : string) : string :=
  match chars with
  | [] => ids
  | char :: rest =>
      match Str.cut char ids with
      | Some (before, _) => before
      | None => first_id_first_found rest ids
      end
  end.

(** [Docket.serial_text]:
    [if x := self.first_id or self.ids: if adjust := gr_prefix_clean(x): return adjust]
    and [return x] otherwise.  [gr_prefix_clean] comes from [gr_clean.py],
    which is not among the sources: it is a parameter, a function from
    [str] to [str | None]. *)
Definition serial_text (gr_prefix_clean : string -> option string)
    (ids : string) : string :=
  let x := if Str.truthy (first_id ids) then first_id ids else ids in
  if Str.truthy x then
    match gr_prefix_clean x with
    | Some adjust => if Str.truthy adjust then adjust else x
    | None => x
    end
  else x.

End Serial.

(** [s.lstrip(" ")] *)
Fixpoint lstrip_blanks (s : string) : string :=
  match s with
  | String c s' => if Ascii.eqb c " " then lstrip_blanks s' else s
  | EmptyString => s
  end.

(** Modelled from the spec: [gr_prefix_clean] ([gr_clean.py]) is missing
    from the sources.  The spec describes it as the cleanup of the
    residual "No." or "Nos." prefix fragment that an id of the GR category
    may keep: that fragment and the blanks after it are removed, and a text
    without the fragment is returned as it is. *)
Definition gr_prefix_clean_spec (text : string) : option string :=
  if Str.startswith "Nos." text then Some (lstrip_blanks (Str.drop 4 text))
  else if Str.startswith "No." text then Some (lstrip_blanks (Str.drop 3 text))
  else Some text.

(** ** Calendar dates ([datetime.date]) *)

Record date := Date { year : Z; month : Z; day : Z }.

Definition is_leap (y : Z) : bool :=
  ((y mod 4 =? 0) && (negb (y mod 100 =? 0) || (y mod 400 =? 0)))%Z.

Definition days_in_month (y m : Z) : Z :=
  (if m =? 2 then (if is_leap y then 29 else 28)
   else if (m =? 4) || (m =? 6) || (m =? 9) || (m =? 11) then 30
   else 31)%Z.

(** The dates [datetime.date] can hold: years 1 to 9999. *)
Definition valid_date (d : date) : bool :=
  ((1 <=? year d) && (year d <=? 9999) && (1 <=? month d) && (month d <=? 12)
   && (1 <=? day d) && (day d <=? days_in_month (year d) (month d)))%Z.

Definition digit_char (n : Z) : ascii := ascii_of_N (Z.to_N (48 + n mod 10)).

Definition zfill2 (n : Z) : string :=
  String (digit_char (n / 10)) (String (digit_char n) EmptyString).

Definition zfill4 (n : Z) : string :=
  String (digit_char (n / 1000))
    (String (digit_char (n / 100)) (zfill2 n)).

(** [d.isoformat()]: YYYY-MM-DD *)
Definition isoformat (d : date) : string :=
  zfill4 (year d) +:+ "-" +:+ zfill2 (month d) +:+ "-" +:+ zfill2 (day d).

Definition digit_val (c : ascii) : option Z :=
  let n := Z.of_N (N_of_ascii c) in
  if ((48 <=? n) && (n <=? 57))%Z then Some (n - 48)%Z else None.

(** A date written YYYY-MM-DD, as the date field of a model reads it from a
    string: ten characters, digits around two dashes, and a calendar date. *)
Definition date_fromisoformat (s : string) : option date :=
  match s with
  | String y1 (String y2 (String y3 (String y4 (String d1
      (String m1 (String m2 (String d2
        (String a1 (String a2 EmptyString))))))))) =>
      if Ascii.eqb d1 "-" && Ascii.eqb d2 "-" then
        match digit_val y1, digit_val y2, digit_val y3, digit_val y4,
              digit_val m1, digit_val m2, digit_val a1, digit_val a2 with
        | Some y1, Some y2, Some y3, Some y4, Some m1, Some m2, Some a1, Some a2 =>
            let d := Date (1000 * y1 + 100 * y2 + 10 * y3 + y4)
                          (10 * m1 + m2) (10 * a1 + a2) in
            if valid_date d then Some d else None
        | _, _, _, _, _, _, _, _ => None
        end
      else None
  | _ => None
  end.

(** ** Docket categories *)

(** Modelled from the spec: [docket_category.py] is missing from the
    sources.  The spec lists the members AM, AC, GR, BM, JIB, OCA, PET and
    UDK, each with a long label and an acronym; the acronym is the member's
    name.  The labels are a parameter of the definitions that use them. *)
Inductive DocketCategory := GR | AM | AC | BM | PET | OCA | JIB | UDK.

#[global] Instance DocketCategory_eq_dec : EqDecision DocketCategory.
Proof. solve_decision. Defined.

Definition DocketCategory_members : list DocketCategory :=
  [GR; AM; AC; BM; PET; OCA; JIB; UDK].

(** [member.name] *)
Definition name (c : DocketCategory) : string :=
  match c with
  | GR => "GR" | AM => "AM" | AC => "AC" | BM => "BM"
  | PET => "PET" | OCA => "OCA" | JIB => "JIB" | UDK => "UDK"
  end.

(** [DocketCategory[key]]: the member of that name, [None] for the
    [KeyError]. *)
Definition DocketCategory_getitem (key : string) : option DocketCategory :=
  List.find (fun c => String.eqb (name c) key) DocketCategory_members.

(** [DocketCategory(label)]: the member of that value. *)
Definition DocketCategory_call (value : DocketCategory -> string)
    (label : string) : option DocketCategory :=
  List.find (fun c => String.eqb (value c) label) DocketCategory_members.

(** ** Regular expressions ([re]) *)

Module Re.

(** An element of a bracketed set. *)
Inductive set_item :=
| One (c : ascii)
| Range (lo hi : ascii)
| ClassDigit
| ClassSpace.

(** A pattern as [re] parses it. [Group] is a capturing group, with its
    name when it has one; [NonCapture] is [(?:...)]; [Repeat lo hi] is the
    greedy [{lo,hi}], with [None] for no upper bound. *)
Inductive regex :=
| Empty
| Char (c : ascii)
| CharSet (items : list set_item)
| Bol
| Eol
| WordBoundary
| Seq (r1 r2 : regex)
| Alt (r1 r2 : regex)
| Repeat (lo : nat) (hi : option nat) (r : regex)
| Group (name : option string) (r : regex)
| NonCapture (r : regex).

Definition Opt (r : regex) : regex := Repeat 0 (Some 1) r.
Definition Star (r : regex) : regex := Repeat 0 None r.
Definition Plus (r : regex) : regex := Repeat 1 None r.
Definition Digit : regex := CharSet [ClassDigit].
Definition Space : regex := CharSet [ClassSpace].

(** A run of literal characters. *)
Fixpoint Lit (s : string) : regex :=
  match s with
  | EmptyString => Empty
  | String c EmptyString => Char c
  | String c s' => Seq (Char c) (Lit s')
  end.

(** [r1 r2 ... rn] and [r1|r2|...|rn]. *)
Fixpoint seqs (rs : list regex) : regex :=
  match rs with
  | [] => Empty
  | [r] => r
  | r :: rest => Seq r (seqs rest)
  end.

Fixpoint alts (rs : list regex) : regex :=
  match rs with
  | [] => Empty
  | [r] => r
  | r :: rest => Alt r (alts rest)
  end.

(** The alternatives of a pattern, in the order [re] tries them. *)
Fixpoint alternatives (r : regex) : list regex :=
  match r with
  | Alt r1 r2 => alternatives r1 ++ alternatives r2
  | _ => [r]
  end.

(** [\d], [\s] and [\w] on the code points below 256. *)
Definition is_digit (c : ascii) : bool :=
  let n := nat_of_ascii c in ((48 <=? n) && (n <=? 57))%nat.

Definition is_space (c : ascii) : bool :=
  let n := nat_of_ascii c in
  (((9 <=? n) && (n <=? 13)) || ((28 <=? n) && (n <=? 32))
   || (n =? 133) || (n =? 160))%nat.

Definition is_word (c : ascii) : bool :=
  let n := nat_of_ascii c in
  (is_digit c || ((65 <=? n) && (n <=? 90)) || ((97 <=? n) && (n <=? 122))
   || (n =? 95) || (n =? 170) || (n =? 178) || (n =? 179) || (n =? 181)
   || (n =? 185) || (n =? 186) || ((188 <=? n) && (n <=? 190))
   || ((192 <=? n) && negb (n =? 215) && negb (n =? 247)))%nat.

Definition in_item (x : ascii) (i : set_item) : bool :=
  match i with
  | One c => Ascii.eqb c x
  | Range lo hi =>
      ((nat_of_ascii lo <=? nat_of_ascii x)
       && (nat_of_ascii x <=? nat_of_ascii hi))%nat
  | ClassDigit => is_digit x
  | ClassSpace => is_space x
  end.

Definition in_set (items : list set_item) (x : ascii) : bool :=
  existsb (in_item x) items.

(** With the flag [re.IGNORECASE] ([ic]) a character also matches through
    its other case. *)
Definition char_ok (ic : bool) (c x : ascii) : bool :=
  Ascii.eqb c x || (ic && Ascii.eqb (Str.lower_char c) (Str.lower_char x)).

Definition set_ok (ic : bool) (items : list set_item) (x : ascii) : bool :=
  in_set items x
  || (ic && (in_set items (Str.lower_char x) || in_set items (Str.capital x))).

Definition is_word_opt (o : option ascii) : bool :=
  match o with
  | Some c => is_word c
  | None => false
  end.

Definition next_char (s : string) : option ascii :=
  match s with
  | String c _ => Some c
  | EmptyString => None
  end.

(** [$] without [re.MULTILINE]: the end of the text, or just before a
    newline that ends the text. *)
Definition at_eol (s : string) : bool :=
  match s with
  | EmptyString => true
  | String c EmptyString => Ascii.eqb c "010"
  | _ => false
  end.

Section Matcher.
Context {A : Type}.
Variable ic : bool.

(** A position of the matcher: the character before it ([None] at the
    start of the text) and the text that is left. *)
Definition cont : Type := option ascii -> string -> option A.

(** The greedy loop of [{lo,hi}] over one round [step] of the repeated
    pattern: one more round first, and the rest of the pattern ([k])
    when that fails.  A round past the lower bound that consumes
    nothing is not repeated. *)
Fixpoint repeat_loop (step : option ascii -> string -> cont -> option A)
    (lo : nat) (hi : option nat) (k : cont) (fuel count : nat)
    (prev : option ascii) (s : string) : option A :=
  let stop := if (lo <=? count)%nat then k prev s else None in
  match fuel with
  | O => stop
  | S fuel' =>
      if match hi with Some h => (h <=? count)%nat | None => false end
      then stop
      else
        match
          step prev s (fun prev' s' =>
            if (String.length s' <? String.length s)%nat || (count <? lo)%nat
            then repeat_loop step lo hi k fuel' (S count) prev' s'
            else None)
        with
        | Some a => Some a
        | None => stop
        end
  end.

(** Backtracking matching from a position: the alternatives in their
    order, every repeat greedy; [k] is the rest of the pattern. *)
Fixpoint run (r : regex) (prev : option ascii) (s : string) (k : cont)
    : option A :=
  match r with
  | Empty => k prev s
  | Char c =>
      match s with
      | String x s' => if char_ok ic c x then k (Some x) s' else None
      | EmptyString => None
      end
  | CharSet items =>
      match s with
      | String x s' => if set_ok ic items x then k (Some x) s' else None
      | EmptyString => None
      end
  | Bol => match prev with None => k prev s | Some _ => None end
  | Eol => if at_eol s then k prev s else None
  | WordBoundary =>
      if xorb (is_word_opt prev) (is_word_opt (next_char s))
      then k prev s else None
  | Seq r1 r2 => run r1 prev s (fun prev' s' => run r2 prev' s' k)
  | Alt r1 r2 =>
      match run r1 prev s k with
      | Some a => Some a
      | None => run r2 prev s k
      end
  | Repeat lo hi r' =>
      repeat_loop (run r') lo hi k (lo + S (String.length s)) 0 prev s
  | Group _ r' => run r' prev s k
  | NonCapture r' => run r' prev s k
  end.
End Matcher.

(** [pattern.match(text)]: the text left after the match at the start. *)
Definition match_ (ic : bool) (r : regex) (text : string) : option string :=
  run ic r None text (fun _ rest => Some rest).

(** [pattern.search(text)]: the leftmost start at which the pattern
    matches; the result is the text left after that match. *)
Fixpoint search_from (ic : bool) (r : regex) (prev : option ascii)
    (s : string) : option string :=
  match run ic r prev s (fun _ rest => Some rest) with
  | Some rest => Some rest
  | None =>
      match s with
      | String c s' => search_from ic r (Some c) s'
      | EmptyString => None
      end
  end.

Definition search (ic : bool) (r : regex) (text : string) : option string :=
  search_from ic r None text.

(** What a pattern matches, as a relation between two positions. *)
Inductive Matches (ic : bool)
  : regex -> option ascii -> string -> option ascii -> string -> Prop :=
| M_Empty p s : Matches ic Empty p s p s
| M_Char c x p s :
    char_ok ic c x = true -> Matches ic (Char c) p (String x s) (Some x) s
| M_CharSet items x p s :
    set_ok ic items x = true ->
    Matches ic (CharSet items) p (String x s) (Some x) s
| M_Bol s : Matches ic Bol None s None s
| M_Eol p s : at_eol s = true -> Matches ic Eol p s p s
| M_WordBoundary p s :
    xorb (is_word_opt p) (is_word_opt (next_char s)) = true ->
    Matches ic WordBoundary p s p s
| M_Seq r1 r2 p s p1 s1 p2 s2 :
    Matches ic r1 p s p1 s1 -> Matches ic r2 p1 s1 p2 s2 ->
    Matches ic (Seq r1 r2) p s p2 s2
| M_AltL r1 r2 p s p' s' :
    Matches ic r1 p s p' s' -> Matches ic (Alt r1 r2) p s p' s'
| M_AltR r1 r2 p s p' s' :
    Matches ic r2 p s p' s' -> Matches ic (Alt r1 r2) p s p' s'
| M_RepeatStop hi r p s : Matches ic (Repeat 0 hi r) p s p s
| M_RepeatRound lo hi r p s p1 s1 p2 s2 :
    hi <> Some 0 ->
    Matches ic r p s p1 s1 ->
    Matches ic (Repeat (pred lo) (pred <$> hi) r) p1 s1 p2 s2 ->
    Matches ic (Repeat lo hi r) p s p2 s2
| M_Group n r p s p' s' :
    Matches ic r p s p' s' -> Matches ic (Group n r) p s p' s'
| M_NonCapture r p s p' s' :
    Matches ic r p s p' s' -> Matches ic (NonCapture r) p s p' s'.

End Re.

(** ** The Administrative Matter pattern ([constructed_am.py])

    The fragments are written with layout and comments, which [re.VERBOSE]
    drops; each definition is the pattern the fragment of the same name
    parses to.  [Num.AM.allowed] is declared in [models], which is not
    among the sources: it is a parameter, one closed sub-pattern. *)

Module ConstructedAm.
Import Re.

(** [[,\.\s-]*] *)
Definition separator : regex :=
  Star (CharSet [One ","; One "."; ClassSpace; One "-"]).

(** [\d{3}[\d-]*] *)
Definition digit : regex :=
  Seq (Repeat 3 (Some 3) Digit) (Star (CharSet [ClassDigit; One "-"])).

Definition acronyms : regex :=
  seqs
    [ Opt Space;
      Group None
        (alts
           [ Lit "A"; Lit "B"; Lit "P"; Lit "R"; Lit "P"; Lit "J";
             Lit "OCA"; Lit "O.C.A."; Lit "SDC"; Lit "CTA"; Lit "RTC";
             Lit "CFI"; Lit "RTJ"; Lit "MTJ"; Lit "MJ"; Lit "CJ";
             Lit "CTJ"; Lit "CAR"; Lit "CCC"; Lit "CFI"; Lit "JDRC";
             Lit "OMB"; Lit "TEL"; Lit "METC"; Lit "MCTC"; Lit "MTCC";
             Lit "MTC"; Lit "HOJ";
             Seq (Lit "RET") (Opt (NonCapture (Char ".")));
             Seq (Lit "SC") (Opt (Char "C"));
             Seq (Lit "SC") (Opt (NonCapture (Lit "-PHILJA")));
             Seq (Lit "CA") (Opt (NonCapture (Lit "-J")));
             Seq (Lit "SB") (Opt (NonCapture (Lit "-J"))) ]);
      Opt Space ].

Definition letter : regex :=
  seqs
    [ Opt (Group None (Seq WordBoundary acronyms));
      Repeat 3 None (CharSet [ClassDigit; One "-"]);
      Opt (Group None acronyms) ].

Definition ipi : regex :=
  Group None (Alt (Group None (Lit "IPI")) (Group None (Lit "I.P.I."))).

Definition am_key : regex :=
  Group None
    (Alt
       (Group None (seqs [Char "a"; separator; Char "m"; separator]))
       (Group None
          (seqs
             [ WordBoundary;
               Lit "adm";
               Opt (Group None (Lit "in"));
               Opt (Group None (Lit "istrative"));
               separator;
               Opt
                 (NonCapture
                    (seqs
                       [ WordBoundary;
                         Group None (Alt (Lit "Matter") (Lit "Mat."));
                         Star Space ])) ]))).

(** The run of joiners that ends a clause: an optional group around any
    number of [[\,\s,\-\&]] or [and]. *)
Definition joiners : regex :=
  Opt
    (NonCapture
       (Star
          (Group None
             (Alt (CharSet [One ","; ClassSpace; One ","; One "-"; One "&"])
                  (Lit "and"))))).

Section Patterns.
Variable Num_AM_allowed : regex.

Definition am_oca_ipi_num : regex :=
  Group None
    (seqs
       [ Opt am_key;
         Lit "OCA";
         Star Space;
         Group None (Alt (Lit "IPI") (Lit "I.P.I."));
         Star Space;
         Num_AM_allowed ]).

Definition am_num : regex :=
  Group None (Seq am_key Num_AM_allowed).

Definition am_init : regex :=
  Group (Some "am_init") (alts [am_oca_ipi_num; am_num; am_key]).

Definition am_middle : regex :=
  Group (Some "am_middle")
    (Group None (Alt (Group None letter) (Group None digit))).

Definition required : regex := seqs [am_init; am_middle; joiners].

Definition am_init_optional : regex :=
  Opt (Group (Some "am_init_optional") (Alt am_oca_ipi_num am_num)).

Definition am_middle_optional : regex :=
  Opt (Group (Some "am_middle_optional") (Alt letter digit)).

Definition optional : regex :=
  seqs [am_init_optional; am_middle_optional; joiners].

Definition am_phrases : regex :=
  Group (Some "am_phrase")
    (Seq (Group None required) (Repeat 1 (Some 3) (Group None optional))).

(** The body of a group. *)
Definition group_body (r : regex) : regex :=
  match r with
  | Group _ body => body
  | _ => r
  end.

(** The most clauses (a required one, then the optional ones) that one
    occurrence of a pattern of the shape
    [(required)(optional){lo,hi}] holds. *)
Definition max_clauses (r : regex) : option nat :=
  match group_body r with
  | Seq _ (Repeat _ (Some hi) _) => Some (1 + hi)
  | _ => None
  end.
End Patterns.

End ConstructedAm.

(** ** Exceptions and the values a model is built from *)

Inductive exception :=
| ValidationError (fields : list string)
| MissingField (data : gmap string string)
| KeyError (key : string)
| ParserError (text : string)
| AttributeError (attribute : string).

(** The Python values the fields of a model may be given. *)
Inductive pyobj :=
| PyNone
| PyStr (s : string)
| PyInt (n : Z)
| PyCategory (c : DocketCategory)
| PyDate (d : date).

(** [obj.name]: a member of the enumeration has a name; a [str], a number,
    a date and [None] have none. *)
Definition getattr_name (v : pyobj) : exception + string :=
  match v with
  | PyCategory c => inr (name c)
  | _ => inl (AttributeError "name")
  end.

(** A field declared [str]: any string, a member of the enumeration
    included (it is a [str], and its value is kept); nothing else. *)
Definition validate_str (value : DocketCategory -> string) (v : pyobj)
    : option string :=
  match v with
  | PyStr s => Some s
  | PyCategory c => Some (value c)
  | _ => None
  end.

(** A field declared [DocketCategory]: a member, or the value of one. *)
Definition validate_category (value : DocketCategory -> string) (v : pyobj)
    : option DocketCategory :=
  match v with
  | PyCategory c => Some c
  | PyStr s => DocketCategory_call value s
  | _ => None
  end.

(** A field declared [date] that is given a date. *)
Definition validate_date_object (d : date) : option date :=
  if valid_date d then Some d else None.

(** A field declared [date]: a date is taken as it is and [None] is
    refused.  What the field makes of any other value (a text, a number)
    is the business of the validation framework: [lax_date] stands for
    it. *)
Definition validate_date (lax_date : pyobj -> option date) (v : pyobj)
    : option date :=
  match v with
  | PyDate d => validate_date_object d
  | PyNone => None
  | _ => lax_date v
  end.

Definition failed {A : Type} (field : string) (o : option A) : list string :=
  match o with
  | Some _ => []
  | None => [field]
  end.

(** ** [citation_utils/dockets/models/docket_model.py] *)

Module CitationUtils.

(** The record keeps the member that the field [category] resolves to;
    what the model stores under the attribute is the value of that member
    ([category_attr] below). *)
Record Docket := {
  context : string;
  category : DocketCategory;
  ids : string;
  docket_date : date
}.

(** [re.compile(r"^[a-z0-9-]+$")] *)
Definition DB_SERIAL_NUM : Re.regex :=
  Re.seqs
    [ Re.Bol;
      Re.Plus (Re.CharSet [Re.Range "a" "z"; Re.Range "0" "9"; Re.One "-"]);
      Re.Eol ].

(** [Docket.check_serial_num] *)
Definition check_serial_num (text : string) : bool :=
  match Re.search false DB_SERIAL_NUM (Str.lower text) with
  | Some _ => true
  | None => false
  end.

Definition first_id (d : Docket) : string := Serial.first_id (ids d).

Section Model.
(** What the module imports from outside the sources: the values of the
    categories, [gr_prefix_clean], [is_eq] of [citation_report],
    [DOCKET_DATE_FORMAT] of [citation_date] with [date.strftime], and
    [parse] of [dateutil] followed by [.date()]. *)
Variable value : DocketCategory -> string.
Variable gr_prefix_clean : string -> option string.
Variable is_eq : string -> string -> bool.
Variable DOCKET_DATE_FORMAT : string.
Variable strftime : date -> string -> string.
Variable parse : string -> option date.

(** The model built from its four fields as validated: the fields that
    failed are reported together. *)
Definition Docket_of_fields (ctx : option string) (cat : option DocketCategory)
    (i : option string) (d : option date) : exception + Docket :=
  match ctx, cat, i, d with
  | Some ctx, Some cat, Some i, Some d => inr (Build_Docket ctx cat i d)
  | ctx, cat, i, d =>
      inl (ValidationError
             (failed "context" ctx ++ failed "category" cat
              ++ failed "ids" i ++ failed "docket_date" d))
  end.

(** [Docket(context=..., category=..., ids=..., docket_date=...)]: every
    field is required and checked against its declared type. *)
Definition Docket_new (lax_date : pyobj -> option date)
    (context category ids docket_date : pyobj) : exception + Docket :=
  Docket_of_fields (validate_str value context)
    (validate_category value category) (validate_str value ids)
    (validate_date lax_date docket_date).

(** [self.category]: with [use_enum_values=True] the model stores the
    value of the member, a [str], in place of the member. *)
Definition category_attr (d : Docket) : pyobj := PyStr (value (category d)).

Definition serial_text (d : Docket) : string :=
  Serial.serial_text gr_prefix_clean (ids d).

(** [date] objects are always truthy, so the [None] branch is not taken. *)
Definition formatted_date (d : Docket) : option string :=
  Some (strftime (docket_date d) DOCKET_DATE_FORMAT).

(** How an f-string writes a value of type [str | None]. *)
Definition fmt_opt (o : option string) : string :=
  match o with
  | Some s => s
  | None => "None"
  end.

Definition __str__ (d : Docket) : string :=
  if Str.truthy (serial_text d) then
    value (category d) +:+ " No. " +:+ Str.upper (serial_text d) +:+ ", "
    +:+ fmt_opt (formatted_date d)
  else "No proper string detected.".

Definition __repr__ (d : Docket) : string :=
  "<Docket: " +:+ value (category d) +:+ " " +:+ serial_text d +:+ ", "
  +:+ fmt_opt (formatted_date d) +:+ ">".

(** [all(...)] of a list of booleans. *)
Definition all (bs : list bool) : bool := List.forallb (fun b => b) bs.

(** [__eq__] reads [self.category.name] first, then
    [other.category.name]; an attribute that is missing raises. *)
Definition __eq__ (self other : Docket) : exception + bool :=
  match getattr_name (category_attr self) with
  | inl e => inl e
  | inr name_1 =>
      match getattr_name (category_attr other) with
      | inl e => inl e
      | inr name_2 =>
          let opt_1 := is_eq name_1 name_2 in
          let opt_2 := is_eq (first_id self) (first_id other) in
          let opt_3 :=
            is_eq (isoformat (docket_date self))
              (isoformat (docket_date other)) in
          inr (all [opt_1; opt_2; opt_3])
      end
  end.

Definition slug (d : Docket) : exception + string :=
  match getattr_name (category_attr d) with
  | inl e => inl e
  | inr category_name =>
      inr (Str.join "-"
             [category_name; serial_text d; isoformat (docket_date d)])
  end.

(** [Docket.from_data], on a mapping whose values are texts, as in the
    example of its docstring: [data.get] gives [None] for a missing key,
    and a missing or empty field raises before anything is built.  The
    key of the [KeyError] is the text of [upper] (see [Str.upper_stays]). *)
Definition from_data (data : gmap string string) : exception + Docket :=
  let cat := data !! "cat" in
  let num := data !! "num" in
  let date := data !! "date" in
  if negb (Str.truthy_opt cat) || negb (Str.truthy_opt num)
     || negb (Str.truthy_opt date)
  then inl (MissingField data)
  else
    match cat, num, date with
    | Some cat, Some num, Some date =>
        match DocketCategory_getitem (Str.upper cat) with
        | None => inl (KeyError (Str.upper cat))
        | Some c =>
            match parse date with
            | None => inl (ParserError date)
            | Some d =>
                (* the call of the class, with an empty context *)
                Docket_of_fields (validate_str value (PyStr EmptyString))
                  (validate_category value (PyCategory c))
                  (validate_str value (PyStr num)) (validate_date_object d)
            end
        end
    | _, _, _ => inl (MissingField data)
    end.

End Model.
End CitationUtils.

(** ** [citation_docket/regexes/models/docket_model.py] *)

Module CitationDocket.

(** The two category fields hold the values of their enumerations
    ([use_enum_values]), strings as in the example of
    [CitationAdministrativeMatter.search]. *)
Record Docket := {
  context : string;
  short_category : string;
  category : string;
  ids : string;
  docket_date : date
}.

Definition first_id (d : Docket) : string := Serial.first_id (ids d).

#[global] Instance date_eq_dec : EqDecision date.
Proof. solve_decision. Defined.

#[global] Instance Docket_eq_dec : EqDecision Docket.
Proof. solve_decision. Defined.

(** The class defines no [__eq__]: the comparison is that of the model
    base class, which compares two records of the class field by field. *)
Definition __eq__ (self other : Docket) : bool := bool_decide (self = other).

Section Model.
Variable gr_prefix_clean : string -> option string.
Variable DOCKET_DATE_FORMAT : string.
Variable strftime : date -> string -> string.

(** The model built from its five fields as validated. *)
Definition Docket_of_fields (ctx short cat i : option string) (d : option date)
    : exception + Docket :=
  match ctx, short, cat, i, d with
  | Some ctx, Some short, Some cat, Some i, Some d =>
      inr (Build_Docket ctx short cat i d)
  | ctx, short, cat, i, d =>
      inl (ValidationError
             (failed "context" ctx ++ failed "short_category" short
              ++ failed "category" cat ++ failed "ids" i
              ++ failed "docket_date" d))
  end.

(** [Docket(context=..., short_category=..., category=..., ids=...,
    docket_date=...)].  [ShortDocketCategory] and its bounds on the length
    are declared outside the sources: [validate_short] stands for the
    field [short_category].  The category is stored by its value. *)
Definition Docket_new (value : DocketCategory -> string)
    (validate_short : pyobj -> option string)
    (lax_date : pyobj -> option date)
    (context short_category category ids docket_date : pyobj)
    : exception + Docket :=
  Docket_of_fields (validate_str value context) (validate_short short_category)
    (option_map value (validate_category value category))
    (validate_str value ids) (validate_date lax_date docket_date).

Definition serial_text (d : Docket) : string :=
  Serial.serial_text gr_prefix_clean (ids d).

Definition formatted_date (d : Docket) : option string :=
  Some (strftime (docket_date d) DOCKET_DATE_FORMAT).

Definition __str__ (d : Docket) : string :=
  if Str.truthy (serial_text d) then
    short_category d +:+ " " +:+ serial_text d +:+ ", "
    +:+ CitationUtils.fmt_opt (formatted_date d)
  else "No proper string detected.".

End Model.
End CitationDocket.

(** ** Vocabulary of the statements *)

(** [sep] occurs in [s]. *)
Definition occurs (sep s : string) : Prop :=
  exists before after, s = before +:+ sep +:+ after.

(** [before] is the text of [s] in front of the leftmost occurrence of
    [sep]. *)
Definition before_first (sep s before : string) : Prop :=
  exists after,
    s = before +:+ sep +:+ after
    /\ forall b' a', s = b' +:+ sep +:+ a' ->
                     String.length before <= String.length b'.

(** A stand-in for [dateutil.parser.parse] that reads one text, the date of
    the example of [from_data]. *)
Definition parse_sample (text : string) : option date :=
  if String.eqb text "Jan 1, 2000" then Some (Date 2000 1 1) else None.

(** The characters of [[a-z0-9-]], and the texts [[a-z0-9-]+]. *)
Definition serial_set : list Re.set_item :=
  [Re.Range "a" "z"; Re.Range "0" "9"; Re.One "-"].

Definition serial_char (c : ascii) : bool := Re.in_set serial_set c.

(** The rest of [DB_SERIAL_NUM] after its repeat: [$], then the match. *)
Definition serial_rest : @Re.cont string :=
  fun prev s => Re.run false Re.Eol prev s (fun _ rest => Some rest).

Definition conforming (s : string) : bool :=
  Str.truthy s && Str.forallb serial_char s.

Definition newline : string := String "010" EmptyString.

(** The lines of a text. *)
Definition lines (s : string) : list string := Str.split newline s.

(** The rendering ["{category} {serial_text}, {formatted_date}"]. *)
Definition rendering (category serial_text formatted_date : string) : string :=
  category +:+ " " +:+ serial_text +:+ ", " +:+ formatted_date.

(** The cleanup leaves [y] as it is: it answers nothing, an empty text, or
    [y] itself. *)
Definition kept_by (gr_prefix_clean : string -> option string) (y : string)
    : Prop :=
  gr_prefix_clean y = None \/ gr_prefix_clean y = Some EmptyString
  \/ gr_prefix_clean y = Some y.

(** [n] rounds of a pattern, one after the other. *)
Fixpoint Rounds (ic : bool) (n : nat) (r : Re.regex)
    (p : option ascii) (s : string) (p' : option ascii) (s' : string) : Prop :=
  match n with
  | O => p = p' /\ s = s'
  | S n' =>
      exists p1 s1, Re.Matches ic r p s p1 s1 /\ Rounds ic n' r p1 s1 p' s'
  end.

(** The data of the example of [from_data]. *)
Definition sample_data : gmap string string :=
  {[ "cat" := "AM"; "num" := "RTJ-12-2317"; "date" := "Jan 1, 2000" ]}.

(** What follows the initiator in a phrase: the middle of the required
    clause, its joiners, and the rounds of the optional clause. *)
Definition rest_of_phrase (Num_AM_allowed : Re.regex) : Re.regex :=
  Re.seqs
    [ ConstructedAm.am_middle;
      ConstructedAm.joiners;
      Re.Repeat 1 (Some 3)
        (Re.Group None (ConstructedAm.optional Num_AM_allowed)) ].

(** A stand-in for [Num.AM.allowed] in examples: the marker "No." or
    "Nos.", its period optional, and the blanks after it. *)
Definition Num_AM_sample : Re.regex :=
  Re.seqs [Re.Lit "No"; Re.Opt (Re.Char "s"); Re.Opt (Re.Char "."); Re.Star Re.Space].

(** The text left after the longest run of leading characters that
    satisfy [f]. *)
Fixpoint lstrip_by (f : ascii -> bool) (s : string) : string :=
  match s with
  | String c s' => if f c then lstrip_by f s' else s
  | EmptyString => s
  end.

(** A character of [[\d-]], and one of [[,\.\s-]]. *)
Definition digit_or_dash (c : ascii) : bool := Re.is_digit c || Ascii.eqb c "-".

Definition separator_char (c : ascii) : bool :=
  Ascii.eqb c "," || Ascii.eqb c "." || Re.is_space c || Ascii.eqb c "-".

(** The character in front of the position reached by reading [s] from a
    position that has [prev] in front of it. *)
Fixpoint last_of (prev : option ascii) (s : string) : option ascii :=
  match s with
  | EmptyString => prev
  | String c s' => last_of (Some c) s'
  end.

(** Whether a pattern may match without taking a character, and whether
    its match may open with the character [x]: two readings of the
    pattern that err on the side of yes. *)
Fixpoint nullable (r : Re.regex) : bool :=
  match r with
  | Re.Empty | Re.Bol | Re.Eol | Re.WordBoundary => true
  | Re.Char _ | Re.CharSet _ => false
  | Re.Seq r1 r2 => nullable r1 && nullable r2
  | Re.Alt r1 r2 => nullable r1 || nullable r2
  | Re.Repeat lo _ r' => (lo =? 0)%nat || nullable r'
  | Re.Group _ r' | Re.NonCapture r' => nullable r'
  end.

Fixpoint starts (ic : bool) (r : Re.regex) (x : ascii) : bool :=
  match r with
  | Re.Empty | Re.Bol | Re.Eol | Re.WordBoundary => false
  | Re.Char c => Re.char_ok ic c x
  | Re.CharSet items => Re.set_ok ic items x
  | Re.Seq r1 r2 => starts ic r1 x || (nullable r1 && starts ic r2 x)
  | Re.Alt r1 r2 => starts ic r1 x || starts ic r2 x
  | Re.Repeat _ _ r' | Re.Group _ r' | Re.NonCapture r' => starts ic r' x
  end.

(** A pattern that can match at every position, by taking nothing if need
    be: a reading of the pattern that errs on the side of no. *)
Fixpoint always_matches (r : Re.regex) : bool :=
  match r with
  | Re.Empty => true
  | Re.Seq r1 r2 => always_matches r1 && always_matches r2
  | Re.Alt r1 r2 => always_matches r1 || always_matches r2
  | Re.Repeat lo _ _ => (lo =? 0)%nat
  | Re.Group _ r' | Re.NonCapture r' => always_matches r'
  | _ => false
  end.

(** Stand-ins for the validation framework in examples: a date field that
    reads a text written YYYY-MM-DD and nothing else, and a field
    [short_category] that takes a text of two to four characters. *)
Definition lax_date_sample (v : pyobj) : option date :=
  match v with
  | PyStr s => date_fromisoformat s
  | _ => None
  end.

Definition validate_short_sample (v : pyobj) : option string :=
  match v with
  | PyStr s =>
      if ((2 <=? String.length s) && (String.length s <=? 4))%nat
      then Some s else None
  | _ => None
  end.

(** * Properties *)

(** ** Strings *)

Module StrFacts.
Import Str.

Lemma app_cons c s t : String c s +:+ t = String c (s +:+ t).
Proof. reflexivity. Qed.

Lemma app_empty_l s : EmptyString +:+ s = s.
Proof. reflexivity. Qed.

Lemma app_empty_r s : s +:+ EmptyString = s.
Proof. induction s as [|c s IH]; [reflexivity|]. rewrite app_cons, IH. reflexivity. Qed.

Lemma app_assoc s t u : (s +:+ t) +:+ u = s +:+ t +:+ u.
Proof. induction s as [|c s IH]; [reflexivity|]. rewrite !app_cons, IH. reflexivity. Qed.

Lemma length_app s t : String.length (s +:+ t) = String.length s + String.length t.
Proof. induction s as [|c s IH]; [reflexivity|]. rewrite app_cons. simpl. rewrite IH. reflexivity. Qed.

Lemma startswith_app p t : startswith p (p +:+ t) = true.
Proof.
  induction p as [|a p IH]; [reflexivity|].
  rewrite app_cons. simpl. rewrite Ascii.eqb_refl. exact IH.
Qed.

Lemma startswith_inv p s :
  startswith p s = true -> s = p +:+ drop (String.length p) s.
Proof.
  revert s. induction p as [|a p IH]; intros s H; [reflexivity|].
  destruct s as [|b s]; [discriminate|]. simpl in H.
  destruct (Ascii.eqb a b) eqn:E; [|discriminate].
  apply Ascii.eqb_eq in E. subst b. rewrite app_cons. simpl.
  f_equal. apply IH, H.
Qed.

Lemma startswith_iff p s :
  startswith p s = true <-> exists t, s = p +:+ t.
Proof.
  split.
  - intros H. eexists. apply startswith_inv, H.
  - intros [t ->]. apply startswith_app.
Qed.

Lemma contains_cut sep s :
  contains sep s = match cut sep s with Some _ => true | None => false end.
Proof.
  induction s as [|c s IH]; simpl.
  - destruct (startswith sep EmptyString); reflexivity.
  - destruct (startswith sep (String c s)); [reflexivity|].
    rewrite IH. destruct (cut sep s) as [[b a]|]; reflexivity.
Qed.

Lemma cut_sound sep s before after :
  cut sep s = Some (before, after) -> s = before +:+ sep +:+ after.
Proof.
  revert before. induction s as [|c s IH]; intros before H; simpl in H.
  - destruct (startswith sep EmptyString) eqn:E; [|discriminate].
    inversion H; subst. rewrite app_empty_l. apply startswith_inv, E.
  - destruct (startswith sep (String c s)) eqn:E.
    + inversion H; subst. rewrite app_empty_l. apply startswith_inv, E.
    + destruct (cut sep s) as [[b a]|] eqn:C; [|discriminate].
      inversion H; subst. rewrite app_cons. f_equal. apply IH. reflexivity.
Qed.

Lemma cut_leftmost sep s before after :
  cut sep s = Some (before, after) ->
  forall b' a', s = b' +:+ sep +:+ a' -> String.length before <= String.length b'.
Proof.
  revert before. induction s as [|c s IH]; intros before H b' a' Hs; simpl in H.
  - destruct (startswith sep EmptyString); [|discriminate].
    inversion H; subst. simpl. lia.
  - destruct (startswith sep (String c s)) eqn:E.
    + inversion H; subst. simpl. lia.
    + destruct (cut sep s) as [[b a]|] eqn:C; [|discriminate].
      inversion H; subst. destruct b' as [|c' b'].
      * rewrite app_empty_l in Hs. rewrite Hs, startswith_app in E. discriminate.
      * rewrite app_cons in Hs. inversion Hs; subst. simpl.
        specialize (IH b eq_refl b' a' eq_refl). lia.
Qed.

Lemma cut_unfold sep s :
  cut sep s =
    if startswith sep s then Some (EmptyString, drop (String.length sep) s)
    else match s with
         | EmptyString => None
         | String c s' =>
             match cut sep s' with
             | Some (before, after) => Some (String c before, after)
             | None => None
             end
         end.
Proof. destruct s; reflexivity. Qed.

Lemma cut_complete sep s b' a' :
  s = b' +:+ sep +:+ a' -> exists before after, cut sep s = Some (before, after).
Proof.
  revert s. induction b' as [|c b' IH]; intros s ->; rewrite cut_unfold.
  - rewrite app_empty_l, startswith_app. eauto.
  - destruct (startswith sep _); eauto.
    rewrite app_cons. destruct (IH _ eq_refl) as (b & a & ->). eauto.
Qed.

Lemma head_split sep s :
  head (split sep s)
  = Some (match cut sep s with Some (before, _) => before | None => s end).
Proof.
  unfold split. destruct s as [|c s]; simpl.
  - destruct (startswith sep EmptyString); reflexivity.
  - destruct (startswith sep (String c s)); [reflexivity|].
    destruct (cut sep s) as [[b a]|]; reflexivity.
Qed.

Lemma app_same_length a b x y :
  a +:+ x = b +:+ y -> String.length a = String.length b -> a = b.
Proof.
  revert b. induction a as [|c a IH]; intros [|d b] H L; try discriminate.
  - reflexivity.
  - rewrite !app_cons in H. inversion H; subst. f_equal. eapply IH; eauto.
Qed.

Lemma cut_length sep s before after :
  cut sep s = Some (before, after) ->
  String.length s
  = String.length before + String.length sep + String.length after.
Proof.
  intros H. apply cut_sound in H. rewrite H, !length_app. lia.
Qed.

Lemma split_rounds_cons n sep s :
  exists p rest, split_rounds n sep s = p :: rest.
Proof.
  destruct n as [|n]; simpl; [eauto|].
  destruct (cut sep s) as [[b a]|]; eauto.
Qed.

(** Joining the parts of a split with the separator gives the text back. *)
Lemma join_split sep s : sep <> EmptyString -> join sep (split sep s) = s.
Proof.
  intros Hsep. unfold split.
  assert (forall n s, String.length s <= n -> join sep (split_rounds n sep s) = s)
    as H; [|apply H; lia].
  clear s. induction n as [|n IH]; intros s Hn; [reflexivity|].
  cbn [split_rounds]. destruct (cut sep s) as [[b a]|] eqn:Hc; [|reflexivity].
  pose proof (cut_length _ _ _ _ Hc) as Hl.
  assert (1 <= String.length sep) by (destruct sep; [congruence|simpl; lia]).
  destruct (split_rounds_cons n sep a) as (p & rest & Hr).
  pose proof (IH a ltac:(lia)) as Ha. rewrite Hr in *.
  change (join sep (b :: p :: rest)) with (b +:+ sep +:+ join sep (p :: rest)).
  rewrite Ha. symmetry. apply cut_sound, Hc.
Qed.

End StrFacts.

Module SerialFacts.
Import Str StrFacts Serial.

Lemma before_first_cut sep s before :
  before_first sep s before <-> exists after, cut sep s = Some (before, after).
Proof.
  split.
  - intros (after & Hs & Hmin).
    destruct (cut_complete sep s before after Hs) as (b & a & Hc).
    pose proof (cut_sound _ _ _ _ Hc) as Hs'.
    pose proof (cut_leftmost _ _ _ _ Hc _ _ Hs) as L1.
    pose proof (Hmin _ _ Hs') as L2.
    assert (before = b) as ->; [|eauto].
    eapply app_same_length; [|lia]. rewrite <- Hs. exact Hs'.
  - intros (after & Hc). exists after. split.
    + eapply cut_sound; eauto.
    + eapply cut_leftmost; eauto.
Qed.

Lemma occurs_cut sep s :
  occurs sep s <-> exists before after, cut sep s = Some (before, after).
Proof.
  split.
  - intros (b & a & Hs). eapply cut_complete; eauto.
  - intros (b & a & Hc). exists b, a. eapply cut_sound; eauto.
Qed.

Lemma first_exists_cut sep s :
  first_exists sep s
  = match cut sep s with Some (before, _) => Some before | None => None end.
Proof.
  unfold first_exists. rewrite contains_cut, head_split.
  destruct (cut sep s) as [[b a]|]; reflexivity.
Qed.

Lemma first_id_scan_cons sep rest ids :
  first_id_scan (sep :: rest) ids
  = match cut sep ids with
    | Some (String c before, _) => String c before
    | _ => first_id_scan rest ids
    end.
Proof.
  simpl. rewrite first_exists_cut.
  destruct (cut sep ids) as [[[|c b] a]|]; reflexivity.
Qed.

Lemma first_id_scan_decides l1 sep l2 ids before :
  before_first sep ids before -> before <> EmptyString ->
  (forall s b', s ∈ l1 -> before_first s ids b' -> b' = EmptyString) ->
  first_id_scan (l1 ++ sep :: l2) ids = before.
Proof.
  intros Hb Hne. induction l1 as [|s l1 IH]; intros Hl1.
  - rewrite app_nil_l, first_id_scan_cons.
    apply before_first_cut in Hb as [a ->].
    destruct before; [congruence|reflexivity].
  - rewrite <- app_comm_cons, first_id_scan_cons.
    destruct (cut s ids) as [[[|c b] a]|] eqn:Hc.
    + apply IH. intros; eapply Hl1; eauto. by right.
    + exfalso. assert (String c b = EmptyString); [|discriminate].
      eapply (Hl1 s); [by left|]. apply before_first_cut. eauto.
    + apply IH. intros; eapply Hl1; eauto. by right.
Qed.

Lemma first_id_scan_whole l ids :
  (forall s b', s ∈ l -> before_first s ids b' -> b' = EmptyString) ->
  first_id_scan l ids = ids.
Proof.
  induction l as [|s l IH]; intros Hl; [reflexivity|].
  rewrite first_id_scan_cons.
  destruct (cut s ids) as [[[|c b] a]|] eqn:Hc.
  - apply IH. intros; eapply Hl; eauto. by right.
  - exfalso. assert (String c b = EmptyString); [|discriminate].
    eapply (Hl s); [by left|]. apply before_first_cut. eauto.
  - apply IH. intros; eapply Hl; eauto. by right.
Qed.

Lemma first_id_scan_nonempty l ids :
  ids <> EmptyString -> first_id_scan l ids <> EmptyString.
Proof.
  intros Hne. induction l as [|s l IH]; [exact Hne|].
  rewrite first_id_scan_cons.
  destruct (cut s ids) as [[[|c b] a]|]; first [exact IH | discriminate].
Qed.

End SerialFacts.

(** ** The first identifier *)

Section FirstId.
Import Str StrFacts Serial SerialFacts.

(** C1, as stated, fails: in "/123,456" the first separator of the list
    that occurs is "/", with nothing in front of it, and [first_id] goes on
    to the comma and answers "/123". *)
Lemma first_id_first_found_counterexample :
  first_id "/123,456" = "/123"
  /\ first_id_first_found separators "/123,456" = EmptyString
  /\ first_id "/123,456" <> first_id_first_found separators "/123,456".
Proof. split; [reflexivity|]. split; [reflexivity|discriminate]. Qed.

(** C1 (amended): [first_id] is the text in front of the leftmost occurrence
    of the first separator of the list that occurs in [ids] with some text
    in front of it (a separator that occurs only with nothing in front of
    its leftmost occurrence is passed over); it is the whole of [ids] when
    none of the separators occurs in [ids].  In particular
    "138570, 140024 and 140026" gives "138570" and "no-separator-id" gives
    itself. *)
Theorem first_id_nonempty_prefix_wins (ids : string) :
  (forall l1 sep l2 before,
      separators = l1 ++ sep :: l2 ->
      before_first sep ids before ->
      before <> EmptyString ->
      (forall s b', s ∈ l1 -> before_first s ids b' -> b' = EmptyString) ->
      first_id ids = before)
  /\ ((forall sep, sep ∈ separators -> ~ occurs sep ids) -> first_id ids = ids)
  /\ first_id "138570, 140024 and 140026" = "138570"
  /\ first_id "no-separator-id" = "no-separator-id".
Proof.
  split; [|split; [|split; reflexivity]].
  - intros l1 sep l2 before Hl Hb Hne Hl1. unfold first_id. rewrite Hl.
    apply first_id_scan_decides; assumption.
  - intros Hno. apply first_id_scan_whole. intros s b' Hs (a & Hb & _).
    exfalso. apply (Hno s Hs). exists b', a. exact Hb.
Qed.

Lemma first_id_nonempty_prefix_wins_witness :
  first_id "138570, 140024 and 140026" = "138570".
Proof.
  apply (proj1 (first_id_nonempty_prefix_wins "138570, 140024 and 140026")
           ["/"] "," [";"; " and "; " AND "; "&"] "138570").
  - reflexivity.
  - apply before_first_cut. eexists. reflexivity.
  - discriminate.
  - intros s b' Hs Hb. apply list_elem_of_singleton in Hs. subst s.
    apply before_first_cut in Hb as [a Hc]. discriminate.
Defined.

(** C9: a separator that occurs with nothing in front of it is skipped, the
    scan going on with the rest of the list; when every separator is
    absent or skipped [first_id] is the whole of [ids]; and [first_id] of a
    non-empty [ids] is never empty. *)
Theorem first_id_never_empty (ids : string) :
  (forall l1 sep l2,
      separators = l1 ++ sep :: l2 ->
      before_first sep ids EmptyString ->
      first_id_scan (sep :: l2) ids = first_id_scan l2 ids)
  /\ ((forall sep b, sep ∈ separators -> before_first sep ids b -> b = EmptyString) ->
      first_id ids = ids)
  /\ (ids <> EmptyString -> first_id ids <> EmptyString).
Proof.
  split; [|split].
  - intros l1 sep l2 _ Hb. rewrite first_id_scan_cons.
    apply before_first_cut in Hb as [a ->]. reflexivity.
  - intros H. apply first_id_scan_whole. intros s b' Hs Hb. eapply H; eauto.
  - apply first_id_scan_nonempty.
Qed.

Lemma first_id_never_empty_witness :
  first_id_scan separators "/123,456" = first_id_scan (tail separators) "/123,456"
  /\ first_id "&" = "&"
  /\ first_id "/123,456" <> EmptyString.
Proof.
  destruct (first_id_never_empty "/123,456") as (Hskip & _ & Hne).
  destruct (first_id_never_empty "&") as (_ & Hwhole & _).
  split; [|split].
  - apply (Hskip [] "/" (tail separators)); [reflexivity|].
    apply before_first_cut. eexists. reflexivity.
  - apply Hwhole. intros sep b Hs Hb.
    apply before_first_cut in Hb as [a Hc].
    unfold separators in Hs.
    repeat (apply elem_of_cons in Hs as [->|Hs]; [vm_compute in Hc; congruence|]).
    by apply elem_of_nil in Hs.
  - apply Hne. discriminate.
Defined.

End FirstId.

(** ** The serial number check *)

Section CheckSerialNum.
Import Str StrFacts Re.

Lemma set_ok_serial_char x : set_ok false serial_set x = serial_char x.
Proof. unfold set_ok, serial_char. simpl. apply orb_false_r. Qed.

Lemma serial_char_not_newline x :
  serial_char x = true -> at_eol (String x EmptyString) = false.
Proof.
  intros Hx. cbn [at_eol]. destruct (Ascii.eqb x "010") eqn:E; [|reflexivity].
  apply Ascii.eqb_eq in E. subst x. vm_compute in Hx. discriminate.
Qed.

Lemma at_eol_cons_serial x s : serial_char x = true -> at_eol (String x s) = false.
Proof.
  intros H. destruct s; [apply serial_char_not_newline, H|reflexivity].
Qed.

Lemma repeat_loop_serial s :
  forall fuel count prev,
    String.length s < fuel ->
    (is_Some (repeat_loop (run false (CharSet serial_set)) 1 None serial_rest fuel count prev s)
     <-> exists w s', s = w +:+ s' /\ forallb serial_char w = true
                      /\ 1 <= count + String.length w /\ at_eol s' = true).
Proof.
  induction s as [|x s IH]; intros fuel count prev Hf;
    (destruct fuel as [|fuel]; [simpl in Hf; lia|]).
  - simpl. unfold serial_rest. simpl. split.
    + intros Hs. exists EmptyString, EmptyString. repeat split; auto.
      destruct count; [destruct Hs; discriminate|simpl; lia].
    + intros (w & s' & Hs & Hw & Hc & He). destruct w; [|discriminate].
      simpl in Hc. destruct count; [lia|]. simpl. eauto.
  - cbn [repeat_loop run]. rewrite set_ok_serial_char.
    assert (Hlt : (String.length s <? String.length (String x s))%nat = true)
      by (apply Nat.ltb_lt; simpl; lia).
    rewrite Hlt. cbn [orb].
    destruct (serial_char x) eqn:Hx.
    + specialize (IH fuel (S count) (Some x) ltac:(simpl in Hf; lia)).
      destruct (repeat_loop _ 1 None serial_rest fuel (S count) (Some x) s) as [a|] eqn:Hl.
      * split; [intros _|intros _; eexists; reflexivity].
        destruct (proj1 IH (mk_is_Some _ _ eq_refl)) as (w & s' & -> & Hw & Hc & He).
        exists (String x w), s'. rewrite app_cons. simpl. rewrite Hx, Hw.
        repeat split; auto. lia.
      * unfold serial_rest at 1. cbn [run]. rewrite (at_eol_cons_serial _ _ Hx).
        split.
        { destruct (1 <=? count)%nat; intros [? ?]; discriminate. }
        intros (w & s' & Hs & Hw & Hc & He). exfalso. destruct w as [|y w].
        -- rewrite app_empty_l in Hs. subst s'.
           rewrite (at_eol_cons_serial _ _ Hx) in He. discriminate.
        -- rewrite app_cons in Hs. inversion Hs; subst. simpl in Hw.
           apply andb_prop in Hw as [_ Hw].
           assert (is_Some (@None string)) as [? ?]; [|discriminate].
           apply IH. exists w, s'. repeat split; auto. simpl in Hc. lia.
    + unfold serial_rest. cbn [run]. split.
      * intros Hs. exists EmptyString, (String x s). rewrite app_empty_l.
        destruct (1 <=? count)%nat eqn:Hc; [|destruct Hs; discriminate].
        apply Nat.leb_le in Hc.
        destruct (at_eol (String x s)) eqn:He; [|destruct Hs; discriminate].
        repeat split; auto; simpl; lia.
      * intros (w & s' & Hs & Hw & Hc & He). destruct w as [|y w].
        -- rewrite app_empty_l in Hs. subst s'. rewrite He.
           simpl in Hc. destruct count; [lia|]. simpl. eauto.
        -- rewrite app_cons in Hs. inversion Hs; subst. simpl in Hw.
           rewrite Hx in Hw. discriminate.
Qed.

Lemma search_from_after_start s :
  forall c, search_from false CitationUtils.DB_SERIAL_NUM (Some c) s = None.
Proof. induction s as [|x s IH]; intros c; simpl; [reflexivity|apply IH]. Qed.

Lemma search_serial text :
  is_Some (search false CitationUtils.DB_SERIAL_NUM text)
  <-> is_Some (repeat_loop (run false (CharSet serial_set)) 1 None serial_rest
                 (1 + S (String.length text)) 0 None text).
Proof.
  unfold search.
  assert (E : run false CitationUtils.DB_SERIAL_NUM None text (fun _ rest => Some rest)
              = repeat_loop (run false (CharSet serial_set)) 1 None serial_rest
                  (1 + S (String.length text)) 0 None text) by reflexivity.
  destruct text as [|x s]; cbn [search_from]; rewrite E;
    destruct (repeat_loop _ _ _ _ _ _ _ _) as [a|]; try tauto.
  rewrite search_from_after_start. tauto.
Qed.

Lemma truthy_length s : truthy s = true <-> 1 <= String.length s.
Proof. destruct s; simpl; split; intros; try lia; try discriminate; auto. Qed.

Lemma check_serial_num_iff text :
  CitationUtils.check_serial_num text = true
  <-> exists w s', lower text = w +:+ s' /\ conforming w = true /\ at_eol s' = true.
Proof.
  unfold CitationUtils.check_serial_num.
  pose proof (search_serial (lower text)) as Hs.
  pose proof (repeat_loop_serial (lower text) (1 + S (String.length (lower text)))
                0 None ltac:(lia)) as Hl.
  assert (is_Some (search false CitationUtils.DB_SERIAL_NUM (lower text))
          <-> exists w s', lower text = w +:+ s' /\ conforming w = true /\ at_eol s' = true)
    as Hiff.
  { etransitivity; [exact Hs|]. etransitivity; [exact Hl|]. split.
    - intros (w & s' & H1 & H2 & H3 & H4). exists w, s'.
      split; [exact H1|split; [|exact H4]].
      unfold conforming. rewrite H2, andb_true_r. apply truthy_length. lia.
    - intros (w & s' & H1 & H2 & H4). exists w, s'.
      unfold conforming in H2. apply andb_prop in H2 as [Ht Hw].
      apply truthy_length in Ht. repeat split; auto. }
  destruct (search false CitationUtils.DB_SERIAL_NUM (lower text)) as [a|].
  - split; [intros _; apply Hiff; eexists; reflexivity|reflexivity].
  - split; [discriminate|]. intros H. apply Hiff in H as [? ?]. discriminate.
Qed.

Lemma at_eol_inv s : at_eol s = true -> s = EmptyString \/ s = newline.
Proof.
  destruct s as [|c [|d s]]; simpl; intros H; auto; [|discriminate].
  apply Ascii.eqb_eq in H. subst c. right. reflexivity.
Qed.

Lemma cut_newline w :
  forallb serial_char w = true ->
  cut newline (w +:+ newline) = Some (w, EmptyString).
Proof.
  induction w as [|x w IH]; intros Hw; [reflexivity|].
  simpl in Hw. apply andb_prop in Hw as [Hx Hw].
  rewrite app_cons, cut_unfold.
  assert (startswith newline (String x (w +:+ newline)) = false) as ->.
  { unfold newline. cbn [startswith].
    destruct (Ascii.eqb "010" x) eqn:E; [|reflexivity].
    apply Ascii.eqb_eq in E. subst x. vm_compute in Hx. discriminate. }
  rewrite (IH Hw). reflexivity.
Qed.

Lemma lower_char_idem c : lower_char (lower_char c) = lower_char c.
Proof. destruct c as [[] [] [] [] [] [] [] []]; reflexivity. Qed.

Lemma lower_idem s : lower (lower s) = lower s.
Proof.
  induction s as [|c s IH]; [reflexivity|].
  unfold lower in *. simpl. rewrite lower_char_idem, IH. reflexivity.
Qed.

(** C10: [check_serial_num] reads its text through [lower]: it answers
    [True] when the lowercased text is one or more characters of
    [[a-z0-9-]], and [False] when the lowercased text holds another
    character and none of its lines is such a text. *)
Theorem check_serial_num_case_insensitive (text : string) :
  CitationUtils.check_serial_num text = CitationUtils.check_serial_num (lower text)
  /\ (conforming (lower text) = true -> CitationUtils.check_serial_num text = true)
  /\ (forallb serial_char (lower text) = false ->
      (forall line, line ∈ lines (lower text) -> conforming line = false) ->
      CitationUtils.check_serial_num text = false).
Proof.
  split; [|split].
  - unfold CitationUtils.check_serial_num. rewrite lower_idem. reflexivity.
  - intros Hc. apply check_serial_num_iff.
    exists (lower text), EmptyString. rewrite app_empty_r. auto.
  - intros Hother Hlines.
    destruct (CitationUtils.check_serial_num text) eqn:Hk; [|reflexivity].
    exfalso. apply check_serial_num_iff in Hk as (w & s' & Hs & Hw & He).
    pose proof Hw as Hw'. unfold conforming in Hw'.
    apply andb_prop in Hw' as [_ Hall].
    apply at_eol_inv in He as [-> | ->].
    + rewrite app_empty_r in Hs. congruence.
    + assert (w ∈ lines (lower text)) as Hin.
      { unfold lines, split. rewrite Hs, length_app.
        replace (String.length w + String.length newline) with (S (String.length w))
          by (simpl; lia).
        cbn [split_rounds]. rewrite (cut_newline _ Hall). apply list_elem_of_here. }
      rewrite (Hlines _ Hin) in Hw. discriminate.
Qed.

Lemma check_serial_num_case_insensitive_witness :
  CitationUtils.check_serial_num "RTJ-12-2317" = true
  /\ CitationUtils.check_serial_num "P 88/198" = false.
Proof.
  split.
  - apply (proj1 (proj2 (check_serial_num_case_insensitive "RTJ-12-2317"))).
    reflexivity.
  - apply (proj2 (proj2 (check_serial_num_case_insensitive "P 88/198"))).
    + reflexivity.
    + intros line Hin. vm_compute in Hin.
      apply list_elem_of_singleton in Hin. subst line. reflexivity.
Defined.

End CheckSerialNum.

(** ** Equality of dockets *)

Section Equality.

(** C2 (the code on its own records): on two dockets of [citation_utils]
    [__eq__] raises [AttributeError] whatever the records hold, since the
    stored category is a [str] and has no [name]; the dockets of
    [citation_docket] are compared field by field, so that two records
    that differ only in their context are not equal. *)
Theorem docket_eq_raises (value : DocketCategory -> string)
    (is_eq : string -> string -> bool) (a b : CitationUtils.Docket) :
  CitationUtils.__eq__ value is_eq a b = inl (AttributeError "name")
  /\ (forall short category ids docket_date,
         CitationDocket.__eq__
           (CitationDocket.Build_Docket "G.R. No. 138570" short category ids
              docket_date)
           (CitationDocket.Build_Docket "GR 138570" short category ids
              docket_date)
         = false).
Proof.
  split; [reflexivity|].
  intros short category ids docket_date. apply bool_decide_eq_false.
  intros H. inversion H.
Qed.

End Equality.

(** ** The serial text *)

Section SerialText.
Import Str StrFacts Serial SerialFacts.

Lemma serial_text_fixed gr_prefix_clean y :
  (forall sep, sep ∈ separators -> ~ occurs sep y) ->
  kept_by gr_prefix_clean y ->
  serial_text gr_prefix_clean y = y.
Proof.
  intros Hno Hkept.
  assert (first_id y = y) as Hid.
  { apply first_id_scan_whole. intros s b' Hs (a & Hb & _).
    exfalso. apply (Hno s Hs). exists b', a. exact Hb. }
  unfold serial_text. rewrite Hid. cbv zeta.
  destruct (truthy y) eqn:Ht; rewrite ?Ht; [|reflexivity].
  destruct Hkept as [-> | [-> | ->]]; [reflexivity|reflexivity|].
  rewrite Ht. reflexivity.
Qed.

Lemma serial_text_empty_iff gr_prefix_clean ids :
  serial_text gr_prefix_clean ids = EmptyString <-> ids = EmptyString.
Proof.
  split.
  - intros H. destruct ids as [|c ids]; [reflexivity|]. exfalso.
    pose proof (first_id_scan_nonempty separators (String c ids) ltac:(discriminate))
      as Hne.
    unfold serial_text in H. fold (first_id (String c ids)) in Hne.
    destruct (first_id (String c ids)) as [|x f] eqn:Hf; [congruence|].
    cbn [truthy] in H.
    destruct (gr_prefix_clean (String x f)) as [[|z adjust]|]; discriminate.
  - intros ->. reflexivity.
Qed.

(** C3, as stated, fails: the id "P-88-198, P-88-199/200" is cut at the
    slash, which comes first in the list, and what is left is cut again at
    the comma by a second pass. *)
Lemma serial_text_idempotence_counterexample :
  first_id "P-88-198, P-88-199/200" = "P-88-198, P-88-199"
  /\ first_id "P-88-198, P-88-199" = "P-88-198"
  /\ serial_text gr_prefix_clean_spec "P-88-198, P-88-199/200"
     = "P-88-198, P-88-199"
  /\ serial_text gr_prefix_clean_spec
       (serial_text gr_prefix_clean_spec "P-88-198, P-88-199/200")
     = "P-88-198".
Proof. repeat split. Qed.

(** C3 (amended): a second pass of [serial_text] changes nothing when the
    result of the first holds none of the separators and the cleanup
    leaves it as it is. *)
Theorem serial_text_idempotent_when_kept
    (gr_prefix_clean : string -> option string) (x : string) :
  (forall sep, sep ∈ separators -> ~ occurs sep (serial_text gr_prefix_clean x)) ->
  kept_by gr_prefix_clean (serial_text gr_prefix_clean x) ->
  serial_text gr_prefix_clean (serial_text gr_prefix_clean x)
  = serial_text gr_prefix_clean x.
Proof. intros Hno Hkept. apply serial_text_fixed; assumption. Qed.

Lemma serial_text_idempotent_when_kept_witness :
  serial_text gr_prefix_clean_spec
    (serial_text gr_prefix_clean_spec "Nos. 138570, 140024 and 140026")
  = serial_text gr_prefix_clean_spec "Nos. 138570, 140024 and 140026".
Proof.
  apply (serial_text_idempotent_when_kept gr_prefix_clean_spec
           "Nos. 138570, 140024 and 140026").
  - intros sep Hs Ho. apply occurs_cut in Ho as (b & a & Hc).
    unfold separators in Hs.
    repeat (apply elem_of_cons in Hs as [->|Hs]; [vm_compute in Hc; congruence|]).
    by apply elem_of_nil in Hs.
  - right. right. reflexivity.
Defined.

End SerialText.

(** ** Building a docket *)

Section Construction.
Import Str StrFacts.

(** C4, as stated, fails: the field [ids] is a plain [str], and a docket
    with an empty or a blank [ids] is built. *)
Lemma Docket_new_empty_ids_counterexample :
  (forall value lax_date,
      CitationUtils.Docket_new value lax_date (PyStr "A.M. No. P-88-198")
        (PyCategory AM) (PyStr EmptyString) (PyDate (Date 1992 2 25))
      = inr (CitationUtils.Build_Docket "A.M. No. P-88-198" AM EmptyString
               (Date 1992 2 25)))
  /\ (forall value lax_date,
         CitationUtils.Docket_new value lax_date (PyStr "A.M. No. P-88-198")
           (PyCategory AM) (PyStr "   ") (PyDate (Date 1992 2 25))
         = inr (CitationUtils.Build_Docket "A.M. No. P-88-198" AM "   "
                  (Date 1992 2 25))).
Proof. split; intros value lax_date; reflexivity. Qed.

(** C4 (amended): every string is accepted as [ids], the empty and the
    blank ones too, by the model of four fields and by the model of five;
    the construction fails with a validation error that names [category]
    when the category given is neither a member of the enumeration nor
    the value of one, and one that names [docket_date] when the date given
    is [None], or is not a date and is read as no date by the field. *)
Theorem Docket_new_validates (value : DocketCategory -> string)
    (lax_date : pyobj -> option date)
    (context category ids docket_date : pyobj) :
  (forall ctx c i d,
      valid_date d = true ->
      CitationUtils.Docket_new value lax_date (PyStr ctx) (PyCategory c)
        (PyStr i) (PyDate d)
      = inr (CitationUtils.Build_Docket ctx c i d))
  /\ (forall validate_short short sc ctx c i d,
         validate_short short = Some sc ->
         valid_date d = true ->
         CitationDocket.Docket_new value validate_short lax_date (PyStr ctx)
           short (PyCategory c) (PyStr i) (PyDate d)
         = inr (CitationDocket.Build_Docket ctx sc (value c) i d))
  /\ ((forall c, category <> PyCategory c /\ category <> PyStr (value c)) ->
      exists fields,
        CitationUtils.Docket_new value lax_date context category ids docket_date
        = inl (ValidationError fields)
        /\ "category" ∈ fields)
  /\ (docket_date = PyNone
      \/ ((forall d, docket_date <> PyDate d) /\ lax_date docket_date = None) ->
      exists fields,
        CitationUtils.Docket_new value lax_date context category ids docket_date
        = inl (ValidationError fields)
        /\ "docket_date" ∈ fields).
Proof.
  split; [|split; [|split]].
  - intros ctx c i d V. unfold CitationUtils.Docket_new. cbn.
    unfold validate_date_object. rewrite V. reflexivity.
  - intros validate_short short sc ctx c i d Hs V.
    unfold CitationDocket.Docket_new. cbn.
    unfold validate_date_object. rewrite Hs, V. reflexivity.
  - intros Hcat.
    assert (validate_category value category = None) as Hv.
    { destruct category as [|s|n|c|d]; try reflexivity.
      - simpl. destruct (DocketCategory_call value s) as [c|] eqn:E; [|reflexivity].
        exfalso. unfold DocketCategory_call in E.
        apply List.find_some in E as [_ E]. apply String.eqb_eq in E.
        apply (proj2 (Hcat c)). congruence.
      - exfalso. apply (proj1 (Hcat c)). reflexivity. }
    unfold CitationUtils.Docket_new. rewrite Hv.
    destruct (validate_str value context), (validate_str value ids),
      (validate_date lax_date docket_date);
      eexists; (split; [reflexivity|]); simpl; repeat constructor.
  - intros Hdate.
    assert (validate_date lax_date docket_date = None) as Hv.
    { destruct Hdate as [-> | [Hnot Hlax]]; [reflexivity|].
      destruct docket_date as [|s|n|c|d]; try exact Hlax; [reflexivity|].
      exfalso. apply (Hnot d). reflexivity. }
    unfold CitationUtils.Docket_new. rewrite Hv.
    destruct (validate_str value context), (validate_category value category),
      (validate_str value ids); eexists; (split; [reflexivity|]); simpl;
      repeat constructor.
Qed.

Lemma Docket_new_validates_witness :
  CitationUtils.Docket_new name lax_date_sample (PyStr EmptyString)
    (PyCategory AM) (PyStr EmptyString) (PyDate (Date 2000 1 1))
  = inr (CitationUtils.Build_Docket EmptyString AM EmptyString (Date 2000 1 1))
  /\ CitationDocket.Docket_new name validate_short_sample lax_date_sample
       (PyStr "A.M. No. P-88-198") (PyStr "AM") (PyCategory AM)
       (PyStr EmptyString) (PyDate (Date 1992 2 25))
     = inr (CitationDocket.Build_Docket "A.M. No. P-88-198" "AM" "AM"
              EmptyString (Date 1992 2 25))
  /\ (exists fields,
         CitationUtils.Docket_new name lax_date_sample (PyStr "ctx") (PyStr "XX")
           (PyStr "1") (PyStr "2000-02-30")
         = inl (ValidationError fields)
         /\ "category" ∈ fields)
  /\ (exists fields,
         CitationUtils.Docket_new name lax_date_sample (PyStr "ctx") (PyStr "XX")
           (PyStr "1") (PyStr "2000-02-30")
         = inl (ValidationError fields)
         /\ "docket_date" ∈ fields).
Proof.
  destruct (Docket_new_validates name lax_date_sample (PyStr "ctx") (PyStr "XX")
              (PyStr "1") (PyStr "2000-02-30")) as (Hok & Hfive & Hcat & Hdate).
  split; [|split; [|split]].
  - apply Hok. reflexivity.
  - apply Hfive; reflexivity.
  - apply Hcat. intros c. split; [discriminate|]. destruct c; discriminate.
  - apply Hdate. right. split; [discriminate|reflexivity].
Defined.

End Construction.

(** ** Dockets from key-value data *)

Section FromData.
Import Str StrFacts Serial SerialFacts.

Lemma truthy_opt_None_l (a b c : option string) :
  a = None \/ b = None \/ c = None ->
  negb (truthy_opt a) || negb (truthy_opt b) || negb (truthy_opt c) = true.
Proof.
  intros [-> | [-> | ->]]; simpl.
  - reflexivity.
  - destruct (truthy_opt a); reflexivity.
  - destruct (truthy_opt a), (truthy_opt b); reflexivity.
Qed.

(** C5: [from_data] builds the docket of a mapping that gives the three
    fields, with the category looked up by name, the number as [ids] and
    the date read by [parse]; on the example the serial text is
    "RTJ-12-2317" and the date the first of January 2000.  A mapping that
    lacks one of the three fields raises the missing-field exception and
    builds nothing. *)
Theorem from_data_builds_or_reports (value : DocketCategory -> string)
    (gr_prefix_clean : string -> option string)
    (parse : string -> option date) :
  (forall (data : gmap string string) cat num date c d,
      data !! "cat" = Some cat -> data !! "num" = Some num ->
      data !! "date" = Some date ->
      truthy cat = true -> truthy num = true -> truthy date = true ->
      DocketCategory_getitem (upper cat) = Some c ->
      parse date = Some d -> valid_date d = true ->
      CitationUtils.from_data value parse data
      = inr (CitationUtils.Build_Docket EmptyString c num d))
  /\ (forall data : gmap string string,
         data !! "cat" = None \/ data !! "num" = None \/ data !! "date" = None ->
         CitationUtils.from_data value parse data = inl (MissingField data))
  /\ (parse "Jan 1, 2000" = Some (Date 2000 1 1) ->
      kept_by gr_prefix_clean "RTJ-12-2317" ->
      exists d,
        CitationUtils.from_data value parse sample_data = inr d
        /\ CitationUtils.serial_text gr_prefix_clean d = "RTJ-12-2317"
        /\ CitationUtils.docket_date d = Date 2000 1 1
        /\ CitationUtils.category d = AM).
Proof.
  assert (Hbuild : forall (data : gmap string string) cat num date c d,
      data !! "cat" = Some cat -> data !! "num" = Some num ->
      data !! "date" = Some date ->
      truthy cat = true -> truthy num = true -> truthy date = true ->
      DocketCategory_getitem (upper cat) = Some c ->
      parse date = Some d -> valid_date d = true ->
      CitationUtils.from_data value parse data
      = inr (CitationUtils.Build_Docket EmptyString c num d)).
  { intros data cat num date c d Hc Hn Hd Tc Tn Td Hg Hp V.
    unfold CitationUtils.from_data. rewrite Hc, Hn, Hd. cbn [truthy_opt].
    rewrite Tc, Tn, Td. cbn [negb orb]. rewrite Hg, Hp.
    unfold validate_date_object. rewrite V. reflexivity. }
  split; [exact Hbuild|]. split.
  - intros data H. unfold CitationUtils.from_data.
    rewrite (truthy_opt_None_l _ _ _ H). reflexivity.
  - intros Hp Hkept. eexists. split.
    + apply (Hbuild sample_data "AM" "RTJ-12-2317" "Jan 1, 2000" AM (Date 2000 1 1));
        try reflexivity. exact Hp.
    + split; [|split; reflexivity].
      unfold CitationUtils.serial_text. cbn [CitationUtils.ids].
      apply serial_text_fixed; [|exact Hkept].
      intros sep Hs Ho. apply occurs_cut in Ho as (b & a & Hcut).
      unfold separators in Hs.
      repeat (apply elem_of_cons in Hs as [->|Hs]; [vm_compute in Hcut; congruence|]).
      by apply elem_of_nil in Hs.
Qed.

Lemma from_data_builds_or_reports_witness :
  (exists d,
      CitationUtils.from_data name parse_sample sample_data = inr d
      /\ CitationUtils.serial_text gr_prefix_clean_spec d = "RTJ-12-2317"
      /\ CitationUtils.docket_date d = Date 2000 1 1
      /\ CitationUtils.category d = AM)
  /\ CitationUtils.from_data name parse_sample
       {[ "cat" := "AM"; "date" := "Jan 1, 2000" ]}
     = inl (MissingField {[ "cat" := "AM"; "date" := "Jan 1, 2000" ]}).
Proof.
  destruct (from_data_builds_or_reports name gr_prefix_clean_spec parse_sample)
    as (_ & Hmissing & Hsample).
  split.
  - apply Hsample; [reflexivity|]. right. right. reflexivity.
  - apply Hmissing. right. left. reflexivity.
Defined.

End FromData.

(** ** The rendering of a docket *)

Section Rendering.
Import Str StrFacts Serial SerialFacts.

Lemma truthy_nonempty s : truthy s = true <-> s <> EmptyString.
Proof. destruct s; simpl; split; intros; congruence. Qed.

(** C7, as stated, fails on the docket of [citation_utils]: its rendering
    puts "No." after the category and writes the serial text in capitals.
    With ids "rtj-12-2317", which a cleanup that answers nothing leaves as
    it is, the code renders "... No. RTJ-12-2317, ..." where the claim has
    "... rtj-12-2317, ...", whatever the values of the categories and the
    format of the date are. *)
Lemma str_rendering_counterexample :
  (forall value fmt strftime,
      CitationUtils.__str__ value (fun _ => None) fmt strftime
        (CitationUtils.Build_Docket EmptyString AM "rtj-12-2317" (Date 2000 1 1))
      = value AM +:+ " No. RTJ-12-2317, " +:+ strftime (Date 2000 1 1) fmt)
  /\ (forall (value : DocketCategory -> string) (fmt : string)
         (strftime : date -> string -> string),
         rendering (value AM) (Serial.serial_text (fun _ => None) "rtj-12-2317")
           (strftime (Date 2000 1 1) fmt)
         = value AM +:+ " rtj-12-2317, " +:+ strftime (Date 2000 1 1) fmt)
  /\ CitationUtils.__str__ name (fun _ => None) EmptyString (fun d _ => isoformat d)
       (CitationUtils.Build_Docket EmptyString AM "rtj-12-2317" (Date 2000 1 1))
     = "AM No. RTJ-12-2317, 2000-01-01"
  /\ rendering (name AM) (Serial.serial_text (fun _ => None) "rtj-12-2317")
       (isoformat (Date 2000 1 1))
     = "AM rtj-12-2317, 2000-01-01".
Proof. split; [|split; [|split]]; reflexivity. Qed.

(** C7 (amended): with a serial text that is not empty, the docket of
    [citation_docket] renders as its acronym, the serial text and the
    formatted date, and the docket of [citation_utils] as its category,
    "No.", the serial text in capitals and the formatted date (for a
    serial text whose capitals are code points below 256); with an empty
    serial text both render as "No proper string detected.".  The serial
    text is empty only when [ids] is. *)
Theorem str_rendering (value : DocketCategory -> string)
    (gr_prefix_clean : string -> option string)
    (DOCKET_DATE_FORMAT : string) (strftime : date -> string -> string) :
  (forall d : CitationDocket.Docket,
      CitationDocket.serial_text gr_prefix_clean d <> EmptyString ->
      CitationDocket.__str__ gr_prefix_clean DOCKET_DATE_FORMAT strftime d
      = rendering (CitationDocket.short_category d)
          (CitationDocket.serial_text gr_prefix_clean d)
          (strftime (CitationDocket.docket_date d) DOCKET_DATE_FORMAT))
  /\ (forall d : CitationUtils.Docket,
         CitationUtils.serial_text gr_prefix_clean d <> EmptyString ->
         upper_stays (CitationUtils.serial_text gr_prefix_clean d) = true ->
         CitationUtils.__str__ value gr_prefix_clean DOCKET_DATE_FORMAT strftime d
         = rendering (value (CitationUtils.category d) +:+ " No.")
             (upper (CitationUtils.serial_text gr_prefix_clean d))
             (strftime (CitationUtils.docket_date d) DOCKET_DATE_FORMAT))
  /\ (forall d : CitationDocket.Docket,
         CitationDocket.serial_text gr_prefix_clean d = EmptyString ->
         CitationDocket.__str__ gr_prefix_clean DOCKET_DATE_FORMAT strftime d
         = "No proper string detected.")
  /\ (forall d : CitationUtils.Docket,
         CitationUtils.serial_text gr_prefix_clean d = EmptyString ->
         CitationUtils.__str__ value gr_prefix_clean DOCKET_DATE_FORMAT strftime d
         = "No proper string detected.")
  /\ (forall ids : string,
         Serial.serial_text gr_prefix_clean ids = EmptyString <-> ids = EmptyString).
Proof.
  split; [|split; [|split; [|split]]].
  - intros d Hne. apply truthy_nonempty in Hne.
    unfold CitationDocket.__str__. rewrite Hne. reflexivity.
  - intros d Hne _. apply truthy_nonempty in Hne.
    unfold CitationUtils.__str__, rendering. rewrite Hne.
    rewrite app_assoc. reflexivity.
  - intros d He. unfold CitationDocket.__str__. rewrite He. reflexivity.
  - intros d He. unfold CitationUtils.__str__. rewrite He. reflexivity.
  - apply serial_text_empty_iff.
Qed.

Lemma str_rendering_witness :
  CitationDocket.__str__ gr_prefix_clean_spec EmptyString (fun d _ => isoformat d)
    (CitationDocket.Build_Docket "A.M. No. P-88-198" "AM" "Administrative Matter"
       "P-88-198" (Date 1992 2 25))
  = "AM P-88-198, 1992-02-25"
  /\ CitationUtils.__str__ name gr_prefix_clean_spec EmptyString
       (fun d _ => isoformat d)
       (CitationUtils.Build_Docket EmptyString AM "rtj-12-2317" (Date 2000 1 1))
     = "AM No. RTJ-12-2317, 2000-01-01"
  /\ CitationUtils.__str__ name gr_prefix_clean_spec EmptyString
       (fun d _ => isoformat d)
       (CitationUtils.Build_Docket EmptyString AM EmptyString (Date 1992 2 25))
     = "No proper string detected.".
Proof.
  destruct (str_rendering name gr_prefix_clean_spec EmptyString
              (fun d _ => isoformat d)) as (Hdocket & Hutils & _ & Hempty & _).
  split; [|split].
  - apply (Hdocket (CitationDocket.Build_Docket "A.M. No. P-88-198" "AM"
                      "Administrative Matter" "P-88-198" (Date 1992 2 25))).
    discriminate.
  - apply (Hutils (CitationUtils.Build_Docket EmptyString AM "rtj-12-2317"
                     (Date 2000 1 1))).
    + discriminate.
    + reflexivity.
  - apply (Hempty (CitationUtils.Build_Docket EmptyString AM EmptyString
                     (Date 1992 2 25))).
    reflexivity.
Defined.

End Rendering.

(** ** The shape of the Administrative Matter pattern *)

Section AmPattern.
Import Re ConstructedAm.

Lemma Rounds_group ic n g r p s p' s' :
  Rounds ic n (Group g r) p s p' s' <-> Rounds ic n r p s p' s'.
Proof.
  revert p s. induction n as [|n IH]; intros p s; simpl; [tauto|].
  split; intros (p1 & s1 & Hm & Hr); exists p1, s1; (split; [|apply IH, Hr]).
  - inversion Hm; subst; assumption.
  - constructor; assumption.
Qed.

(** A bounded repeat matches what some number of rounds within its bounds
    matches. *)
Lemma Matches_repeat ic r hi :
  forall lo p s p' s',
    Matches ic (Repeat lo (Some hi) r) p s p' s'
    <-> exists n, lo <= n <= hi /\ Rounds ic n r p s p' s'.
Proof.
  induction hi as [|hi IH]; intros lo p s p' s'.
  - split.
    + intros H. inversion H; subst.
      * exists 0. simpl. split; [lia|auto].
      * congruence.
    + intros (n & Hn & Hr). assert (n = 0) as -> by lia.
      assert (lo = 0) as -> by lia. destruct Hr as [-> ->]. constructor.
  - split.
    + intros H. inversion H as [| | | | | | | | |? ? ? ?|? ? ? ? ? ? ? ? ? Hhi Hm Hrest| |]; subst.
      * exists 0. simpl. split; [lia|auto].
      * simpl in Hrest. apply IH in Hrest as (n & Hn & Hr).
        exists (S n). split; [lia|]. simpl. eauto.
    + intros (n & Hn & Hr). destruct n as [|n].
      * assert (lo = 0) as -> by lia. destruct Hr as [-> ->]. constructor.
      * destruct Hr as (p1 & s1 & Hm & Hr).
        eapply M_RepeatRound; [discriminate|exact Hm|].
        simpl. apply IH. exists n. split; [lia|exact Hr].
Qed.

Section Sound.
Context {A : Type}.
Variable ic : bool.

Lemma repeat_loop_sound r lo hi (k : @cont A) a :
  (forall p s k', run ic r p s k' = Some a ->
                  exists p' s', Matches ic r p s p' s' /\ k' p' s' = Some a) ->
  forall fuel count p s,
    repeat_loop (run ic r) lo hi k fuel count p s = Some a ->
    exists p' s',
      Matches ic (Repeat (lo - count) ((fun h => h - count) <$> hi) r) p s p' s'
      /\ k p' s' = Some a.
Proof.
  intros IHr.
  assert (Hstop : forall count p s,
             (if (lo <=? count)%nat then k p s else None) = Some a ->
             exists p' s',
               Matches ic (Repeat (lo - count) ((fun h => h - count) <$> hi) r) p s p' s'
               /\ k p' s' = Some a).
  { intros count p s H. destruct (lo <=? count)%nat eqn:E; [|discriminate].
    apply Nat.leb_le in E. exists p, s. split; [|exact H].
    replace (lo - count) with 0 by lia. constructor. }
  induction fuel as [|fuel IHf]; intros count p s H; [apply Hstop, H|].
  cbn [repeat_loop] in H.
  destruct (match hi with Some h => (h <=? count)%nat | None => false end) eqn:Eh;
    [apply Hstop, H|].
  match type of H with
  | match ?step with _ => _ end = _ => destruct step as [b|] eqn:Es
  end; [|apply Hstop, H].
  inversion H; subst b. apply IHr in Es as (p1 & s1 & Hm & Hk).
  destruct ((String.length s1 <? String.length s)%nat || (count <? lo)%nat);
    [|discriminate].
  apply IHf in Hk as (p' & s' & Hrest & Hk). exists p', s'. split; [|exact Hk].
  eapply M_RepeatRound; [|exact Hm|].
  - destruct hi as [h|]; [|discriminate]. simpl.
    apply Nat.leb_gt in Eh. intros E. inversion E. lia.
  - replace (pred (lo - count)) with (lo - S count) by lia.
    replace (pred <$> ((fun h => h - count) <$> hi))
      with ((fun h => h - S count) <$> hi); [exact Hrest|].
    destruct hi as [h|]; simpl; [f_equal; lia|reflexivity].
Qed.

(** What the matcher finds is a match. *)
Lemma run_sound r :
  forall p s (k : @cont A) a,
    run ic r p s k = Some a ->
    exists p' s', Matches ic r p s p' s' /\ k p' s' = Some a.
Proof.
  induction r as [| c | items | | | | r1 IH1 r2 IH2 | r1 IH1 r2 IH2
                 | lo hi r IH | g r IH | r IH]; intros p s k a H; cbn [run] in H.
  - exists p, s. split; [constructor|exact H].
  - destruct s as [|x s]; [discriminate|].
    destruct (char_ok ic c x) eqn:E; [|discriminate].
    exists (Some x), s. split; [constructor; exact E|exact H].
  - destruct s as [|x s]; [discriminate|].
    destruct (set_ok ic items x) eqn:E; [|discriminate].
    exists (Some x), s. split; [constructor; exact E|exact H].
  - destruct p; [discriminate|]. exists None, s. split; [constructor|exact H].
  - destruct (at_eol s) eqn:E; [|discriminate].
    exists p, s. split; [constructor; exact E|exact H].
  - destruct (xorb _ _) eqn:E; [|discriminate].
    exists p, s. split; [constructor; exact E|exact H].
  - apply IH1 in H as (p1 & s1 & H1 & H). apply IH2 in H as (p2 & s2 & H2 & H).
    exists p2, s2. split; [econstructor; eassumption|exact H].
  - destruct (run ic r1 p s k) as [b|] eqn:E.
    + inversion H; subst b. apply IH1 in E as (p' & s' & Hm & Hk).
      exists p', s'. split; [apply M_AltL, Hm|exact Hk].
    + apply IH2 in H as (p' & s' & Hm & Hk).
      exists p', s'. split; [apply M_AltR, Hm|exact Hk].
  - apply (repeat_loop_sound r lo hi k a) in H; [|intros; apply IH; assumption].
    destruct H as (p' & s' & Hm & Hk). exists p', s'. split; [|exact Hk].
    rewrite Nat.sub_0_r in Hm.
    replace ((fun h => h - 0) <$> hi) with hi in Hm; [exact Hm|].
    destruct hi as [h|]; simpl; [f_equal; lia|reflexivity].
  - apply IH in H as (p' & s' & Hm & Hk).
    exists p', s'. split; [constructor; exact Hm|exact Hk].
  - apply IH in H as (p' & s' & Hm & Hk).
    exists p', s'. split; [constructor; exact Hm|exact Hk].
Qed.
End Sound.

(** C6: the pattern of the AM category is the required clause followed by
    one to three rounds of the optional clause, so that an occurrence
    holds at most four clauses, whatever the matcher finds.  The required
    clause opens with its initiator, followed by the middle and the
    joiners; what matches the pattern starts with a match of one of the
    three alternatives of the initiator; and the matcher tries them in the
    order of the source, each with the whole rest of the phrase behind
    it: the clause of the OCA IPI number first, then the clause of the
    keyword with its number marker, then the keyword alone. *)
Theorem am_phrases_shape (Num_AM_allowed : regex) :
  am_phrases Num_AM_allowed
  = Group (Some "am_phrase")
      (Seq (Group None (required Num_AM_allowed))
           (Repeat 1 (Some 3) (Group None (optional Num_AM_allowed))))
  /\ required Num_AM_allowed
     = Seq (am_init Num_AM_allowed) (Seq am_middle joiners)
  /\ max_clauses (am_phrases Num_AM_allowed) = Some 4
  /\ (forall ic text rest,
         match_ ic (am_phrases Num_AM_allowed) text = Some rest ->
         exists p0 s0 p1 s1 p2 s2 p' n,
           (Matches ic (am_oca_ipi_num Num_AM_allowed) None text p0 s0
            \/ Matches ic (am_num Num_AM_allowed) None text p0 s0
            \/ Matches ic am_key None text p0 s0)
           /\ Matches ic am_middle p0 s0 p1 s1
           /\ Matches ic joiners p1 s1 p2 s2
           /\ 1 <= n <= 3
           /\ Rounds ic n (optional Num_AM_allowed) p2 s2 p' rest)
  /\ alternatives (group_body (am_init Num_AM_allowed))
     = [am_oca_ipi_num Num_AM_allowed; am_num Num_AM_allowed; am_key]
  /\ (forall (ic : bool) p s (k : @cont string),
         run ic (am_init Num_AM_allowed) p s k
         = match run ic (am_oca_ipi_num Num_AM_allowed) p s k with
           | Some a => Some a
           | None =>
               match run ic (am_num Num_AM_allowed) p s k with
               | Some a => Some a
               | None => run ic am_key p s k
               end
           end)
  /\ (forall (ic : bool) p s (k : @cont string),
         run ic (am_phrases Num_AM_allowed) p s k
         = match run ic (am_oca_ipi_num Num_AM_allowed) p s
                   (fun p0 s0 => run ic (rest_of_phrase Num_AM_allowed) p0 s0 k)
           with
           | Some a => Some a
           | None =>
               match run ic (am_num Num_AM_allowed) p s
                       (fun p0 s0 =>
                          run ic (rest_of_phrase Num_AM_allowed) p0 s0 k)
               with
               | Some a => Some a
               | None =>
                   run ic am_key p s
                     (fun p0 s0 => run ic (rest_of_phrase Num_AM_allowed) p0 s0 k)
               end
           end).
Proof.
  split; [reflexivity|]. split; [reflexivity|]. split; [reflexivity|].
  split; [|split; [|split]; reflexivity].
  intros ic text rest H. unfold match_ in H.
  apply run_sound in H as (p' & s' & Hm & Hk). inversion Hk; subst s'.
  unfold am_phrases in Hm.
  inversion Hm as [| | | | | | | | | | |? ? ? ? ? ? Hbody|]; subst.
  inversion Hbody as [| | | | | |? ? ? ? p2 s2 ? ? Hreq Hrep| | | | | |]; subst.
  inversion Hreq as [| | | | | | | | | | |? ? ? ? ? ? Hreq'|]; subst.
  apply Matches_repeat in Hrep as (n & Hn & Hr). apply Rounds_group in Hr.
  unfold required in Hreq'. cbn [seqs] in Hreq'.
  inversion Hreq' as [| | | | | |? ? ? ? p0 s0 ? ? Hinit Htail| | | | | |]; subst.
  inversion Htail as [| | | | | |? ? ? ? p1 s1 ? ? Hmid Hjoin| | | | | |]; subst.
  exists p0, s0, p1, s1, p2, s2, p', n.
  split; [|auto].
  unfold am_init in Hinit. cbn [alts] in Hinit.
  inversion Hinit as [| | | | | | | | | | |? ? ? ? ? ? Halt|]; subst.
  inversion Halt as [| | | | | | |? ? ? ? ? ? Hl|? ? ? ? ? ? Hr1| | | |]; subst;
    [left; exact Hl|].
  inversion Hr1 as [| | | | | | |? ? ? ? ? ? Hl|? ? ? ? ? ? Hr2| | | |]; subst;
    [right; left; exact Hl|right; right; exact Hr2].
Qed.

Lemma am_phrases_shape_witness :
  exists p0 s0 p1 s1 p2 s2 p' n,
    (Matches true (am_oca_ipi_num Num_AM_sample) None
       "A.M. No. P-88-198, February 25, 1992, 206 SCRA 491." p0 s0
     \/ Matches true (am_num Num_AM_sample) None
          "A.M. No. P-88-198, February 25, 1992, 206 SCRA 491." p0 s0
     \/ Matches true am_key None
          "A.M. No. P-88-198, February 25, 1992, 206 SCRA 491." p0 s0)
    /\ Matches true am_middle p0 s0 p1 s1
    /\ Matches true joiners p1 s1 p2 s2
    /\ 1 <= n <= 3
    /\ Rounds true n (optional Num_AM_sample) p2 s2 p'
         "February 25, 1992, 206 SCRA 491.".
Proof.
  apply (proj1 (proj2 (proj2 (proj2 (am_phrases_shape Num_AM_sample))))).
  vm_compute. reflexivity.
Defined.

End AmPattern.

(** ** The example of [CitationAdministrativeMatter.search] *)

Section SearchExample.
Import Re ConstructedAm.

(** On the text of the example the pattern matches from the start; the
    phrase runs over the comma and the blank after the number, up to the
    date. *)
Example am_phrases_sample_text :
  match_ true (am_phrases Num_AM_sample)
    "A.M. No. P-88-198, February 25, 1992, 206 SCRA 491."
  = Some "February 25, 1992, 206 SCRA 491.".
Proof. vm_compute. reflexivity. Qed.

(** Without [re.IGNORECASE] the keyword, written [a] and [m] in the
    pattern, does not match the capitals of the text. *)
Example am_phrases_sample_text_case :
  match_ false (am_phrases Num_AM_sample)
    "A.M. No. P-88-198, February 25, 1992, 206 SCRA 491."
  = None.
Proof. vm_compute. reflexivity. Qed.

(** The id of the example holds no separator. *)
Example first_id_sample_id : Serial.first_id "P-88-198" = "P-88-198".
Proof. reflexivity. Qed.

End SearchExample.

(** ** Further properties of the first identifier and the serial text *)

Section FirstIdMore.
Import Str StrFacts Serial SerialFacts.

Lemma first_id_scan_prefix l ids :
  first_id_scan l ids = ids
  \/ exists sep after, sep ∈ l /\ ids = first_id_scan l ids +:+ sep +:+ after.
Proof.
  induction l as [|s l IH]; [left; reflexivity|].
  rewrite first_id_scan_cons.
  destruct (cut s ids) as [[[|c b] a]|] eqn:Hc.
  - destruct IH as [IH | (sep & after & Hin & IH)]; [left; exact IH|].
    right. exists sep, after. split; [by right|exact IH].
  - right. exists s, a. split; [by left|]. apply cut_sound, Hc.
  - destruct IH as [IH | (sep & after & Hin & IH)]; [left; exact IH|].
    right. exists sep, after. split; [by right|exact IH].
Qed.

(** X1: [first_id] never invents text: it is the whole of [ids], or the
    part of [ids] that one of the six separators follows at once; either
    way it is a prefix of [ids], no longer than [ids]. *)
Theorem first_id_is_prefix (ids : string) :
  (first_id ids = ids
   \/ exists sep after, sep ∈ separators /\ ids = first_id ids +:+ sep +:+ after)
  /\ (exists rest, ids = first_id ids +:+ rest)
  /\ String.length (first_id ids) <= String.length ids.
Proof.
  pose proof (first_id_scan_prefix separators ids) as H. fold (first_id ids) in H.
  split; [exact H|].
  assert (exists rest, ids = first_id ids +:+ rest) as (rest & Hr).
  { destruct H as [H | (sep & after & _ & H)].
    - exists EmptyString. rewrite app_empty_r. congruence.
    - exists (sep +:+ after). exact H. }
  split; [exists rest; exact Hr|].
  rewrite Hr at 2. rewrite length_app. lia.
Qed.

Lemma serial_text_same_first_id gr_prefix_clean ids1 ids2 :
  first_id ids1 = first_id ids2 ->
  serial_text gr_prefix_clean ids1 = serial_text gr_prefix_clean ids2.
Proof.
  intros H.
  assert (forall ids, (if truthy (first_id ids) then first_id ids else ids)
                      = first_id ids) as Hx.
  { intros ids. destruct (first_id ids) as [|c f] eqn:E; [|reflexivity].
    cbn [truthy]. destruct ids as [|x ids]; [reflexivity|].
    exfalso. apply (first_id_scan_nonempty separators (String x ids)); [discriminate|].
    exact E. }
  unfold serial_text. rewrite !Hx, H. reflexivity.
Qed.

(** X2: the serial text depends on [ids] only through [first_id]: two raw
    id strings with the same first identifier have the same serial text,
    whatever the cleanup does. *)
Theorem serial_text_through_first_id
    (gr_prefix_clean : string -> option string) (ids1 ids2 : string) :
  first_id ids1 = first_id ids2 ->
  serial_text gr_prefix_clean ids1 = serial_text gr_prefix_clean ids2.
Proof. apply serial_text_same_first_id. Qed.

Lemma serial_text_through_first_id_witness :
  serial_text gr_prefix_clean_spec "138570, 140024 and 140026"
  = serial_text gr_prefix_clean_spec "138570/140024".
Proof.
  apply (serial_text_through_first_id gr_prefix_clean_spec
           "138570, 140024 and 140026" "138570/140024").
  reflexivity.
Defined.

End FirstIdMore.

(** ** The serial number check, exactly *)

Section CheckSerialNumExact.
Import Str StrFacts Re.

Lemma app_same_suffix_length a b x y :
  a +:+ x = b +:+ y -> String.length x = String.length y -> a = b /\ x = y.
Proof.
  intros H L.
  assert (String.length a = String.length b) as La.
  { apply (f_equal String.length) in H. rewrite !length_app in H. lia. }
  pose proof (app_same_length _ _ _ _ H La) as ->.
  split; [reflexivity|]. eapply String.app_inj, H.
Qed.

(** X5: [check_serial_num] answers [True] exactly for the texts whose
    lowercased form is one or more characters of [[a-z0-9-]], alone or
    followed by one newline (which [$] lets pass); so a text that ends in a
    newline is accepted, while the empty text and a text with two final
    newlines are refused. *)
Theorem check_serial_num_exact (text : string) :
  (CitationUtils.check_serial_num text = true
   <-> conforming (lower text) = true
       \/ exists w, conforming w = true /\ lower text = w +:+ newline)
  /\ CitationUtils.check_serial_num EmptyString = false
  /\ (conforming (lower text) = true ->
      CitationUtils.check_serial_num (text +:+ newline) = true
      /\ CitationUtils.check_serial_num (text +:+ newline +:+ newline) = false).
Proof.
  assert (Hiff : forall t,
             CitationUtils.check_serial_num t = true
             <-> conforming (lower t) = true
                 \/ exists w, conforming w = true /\ lower t = w +:+ newline).
  { intros t. rewrite check_serial_num_iff. split.
    - intros (w & s' & Hs & Hw & He). apply at_eol_inv in He as [-> | ->].
      + left. rewrite Hs, app_empty_r. exact Hw.
      + right. exists w. auto.
    - intros [H | (w & Hw & Hs)].
      + exists (lower t), EmptyString. rewrite app_empty_r. auto.
      + exists w, newline. auto. }
  assert (Hlower : forall a b, lower (a +:+ b) = lower a +:+ lower b).
  { intros a b. induction a as [|c a IH]; [reflexivity|].
    rewrite app_cons. unfold lower in *. cbn [Str.map]. rewrite IH. reflexivity. }
  assert (Hnl : forall w x, forallb serial_char (w +:+ newline +:+ x) = false).
  { intros w x. induction w as [|c w IH]; [reflexivity|].
    rewrite app_cons. cbn [forallb]. rewrite IH. apply andb_false_r. }
  split; [apply Hiff|]. split; [reflexivity|].
  intros Hc. split.
  - apply Hiff. right. exists (lower text). split; [exact Hc|]. apply Hlower.
  - destruct (CitationUtils.check_serial_num _) eqn:E; [|reflexivity]. exfalso.
    apply Hiff in E. rewrite !Hlower in E.
    change (lower newline) with newline in E.
    destruct E as [E | (w & Hw & E)].
    + unfold conforming in E. apply andb_prop in E as [_ E].
      rewrite Hnl in E. discriminate.
    + assert ((lower text +:+ newline) +:+ newline = w +:+ newline) as E'
        by (rewrite app_assoc; exact E).
      apply app_same_suffix_length in E' as [<- _]; [|reflexivity].
      unfold conforming in Hw. apply andb_prop in Hw as [_ Hw].
      rewrite <- (app_empty_r newline) in Hw. rewrite Hnl in Hw. discriminate.
Qed.

Lemma check_serial_num_exact_witness :
  CitationUtils.check_serial_num (String "P" (String "-" (String "1" newline)))
  = true
  /\ CitationUtils.check_serial_num
       (String "P" (String "-" (String "1" (String "010" newline))))
     = false.
Proof.
  apply (proj2 (proj2 (check_serial_num_exact "P-1"))). reflexivity.
Defined.

End CheckSerialNumExact.

(** ** The errors of [from_data] *)

Section FromDataErrors.
Import Str StrFacts.

Lemma truthy_opt_empty_l (a b c : option string) :
  a = Some EmptyString \/ b = Some EmptyString \/ c = Some EmptyString ->
  negb (truthy_opt a) || negb (truthy_opt b) || negb (truthy_opt c) = true.
Proof.
  intros [-> | [-> | ->]]; simpl.
  - reflexivity.
  - destruct (truthy_opt a); reflexivity.
  - destruct (truthy_opt a), (truthy_opt b); reflexivity.
Qed.

Lemma from_data_present value parse (data : gmap string string) cat num date :
  data !! "cat" = Some cat -> data !! "num" = Some num ->
  data !! "date" = Some date ->
  truthy cat = true -> truthy num = true -> truthy date = true ->
  CitationUtils.from_data value parse data
  = match DocketCategory_getitem (upper cat) with
    | None => inl (KeyError (upper cat))
    | Some c =>
        match parse date with
        | None => inl (ParserError date)
        | Some d =>
            CitationUtils.Docket_of_fields (Some EmptyString) (Some c) (Some num)
              (validate_date_object d)
        end
    end.
Proof.
  intros Hc Hn Hd Tc Tn Td. unfold CitationUtils.from_data.
  rewrite Hc, Hn, Hd. cbn [truthy_opt]. rewrite Tc, Tn, Td. reflexivity.
Qed.

(** X6: the errors of [from_data] come in a fixed order.  A field that is
    present but empty counts as missing; with the three fields given, a
    tag that names no category raises [KeyError] before the date is looked
    at, with the tag in capitals as its key (for a tag whose capitals are
    code points below 256); with a known tag, a date that [parse] cannot
    read raises the error of [parse]. *)
Theorem from_data_errors (value : DocketCategory -> string)
    (parse : string -> option date) (data : gmap string string) :
  (data !! "cat" = Some EmptyString \/ data !! "num" = Some EmptyString
   \/ data !! "date" = Some EmptyString ->
   CitationUtils.from_data value parse data = inl (MissingField data))
  /\ (forall cat num date,
         data !! "cat" = Some cat -> data !! "num" = Some num ->
         data !! "date" = Some date ->
         truthy cat = true -> truthy num = true -> truthy date = true ->
         upper_stays cat = true ->
         DocketCategory_getitem (upper cat) = None ->
         CitationUtils.from_data value parse data = inl (KeyError (upper cat)))
  /\ (forall cat num date c,
         data !! "cat" = Some cat -> data !! "num" = Some num ->
         data !! "date" = Some date ->
         truthy cat = true -> truthy num = true -> truthy date = true ->
         DocketCategory_getitem (upper cat) = Some c ->
         parse date = None ->
         CitationUtils.from_data value parse data = inl (ParserError date)).
Proof.
  split; [|split].
  - intros H. unfold CitationUtils.from_data.
    rewrite (truthy_opt_empty_l _ _ _ H). reflexivity.
  - intros cat num date Hc Hn Hd Tc Tn Td _ Hg.
    rewrite (from_data_present _ _ _ _ _ _ Hc Hn Hd Tc Tn Td), Hg. reflexivity.
  - intros cat num date c Hc Hn Hd Tc Tn Td Hg Hp.
    rewrite (from_data_present _ _ _ _ _ _ Hc Hn Hd Tc Tn Td), Hg, Hp. reflexivity.
Qed.

Lemma from_data_errors_witness :
  CitationUtils.from_data name parse_sample
    {[ "cat" := "AM"; "num" := EmptyString; "date" := "Jan 1, 2000" ]}
  = inl (MissingField
           {[ "cat" := "AM"; "num" := EmptyString; "date" := "Jan 1, 2000" ]})
  /\ CitationUtils.from_data name parse_sample
       {[ "cat" := "xy"; "num" := "1"; "date" := "no date" ]}
     = inl (KeyError "XY")
  /\ CitationUtils.from_data name parse_sample
       {[ "cat" := "gr"; "num" := "1"; "date" := "no date" ]}
     = inl (ParserError "no date").
Proof.
  split; [|split].
  - apply (proj1 (from_data_errors name parse_sample _)). right. left. reflexivity.
  - apply (proj1 (proj2 (from_data_errors name parse_sample _)) "xy" "1" "no date");
      reflexivity.
  - apply (proj2 (proj2 (from_data_errors name parse_sample _))
             "gr" "1" "no date" GR); reflexivity.
Defined.

(** X7: the category tag is read without regard to case: two mappings
    that differ only in the case of the tag build the same docket or raise
    the same error. *)
Theorem from_data_tag_case (value : DocketCategory -> string)
    (parse : string -> option date) (data : gmap string string)
    (cat1 cat2 num date : string) :
  upper cat1 = upper cat2 ->
  truthy cat1 = true -> truthy cat2 = true ->
  data !! "num" = Some num -> truthy num = true ->
  data !! "date" = Some date -> truthy date = true ->
  CitationUtils.from_data value parse (<["cat" := cat1]> data)
  = CitationUtils.from_data value parse (<["cat" := cat2]> data).
Proof.
  intros Hu T1 T2 Hn Tn Hd Td.
  rewrite (from_data_present value parse (<["cat" := cat1]> data) cat1 num date),
    (from_data_present value parse (<["cat" := cat2]> data) cat2 num date);
    try assumption.
  - rewrite Hu. reflexivity.
  - apply lookup_insert_eq.
  - rewrite lookup_insert_ne by discriminate. exact Hn.
  - rewrite lookup_insert_ne by discriminate. exact Hd.
  - apply lookup_insert_eq.
  - rewrite lookup_insert_ne by discriminate. exact Hn.
  - rewrite lookup_insert_ne by discriminate. exact Hd.
Qed.

Lemma from_data_tag_case_witness :
  CitationUtils.from_data name parse_sample (<["cat" := "am"]> sample_data)
  = CitationUtils.from_data name parse_sample (<["cat" := "Am"]> sample_data).
Proof.
  apply (from_data_tag_case name parse_sample sample_data "am" "Am"
           "RTJ-12-2317" "Jan 1, 2000"); reflexivity.
Defined.

End FromDataErrors.

(** ** The fragments of the pattern *)

Section Fragments.
Import Str StrFacts Re ConstructedAm.

Lemma lstrip_by_ext f g s :
  (forall x, f x = g x) -> lstrip_by f s = lstrip_by g s.
Proof.
  intros H. induction s as [|c s IH]; [reflexivity|].
  cbn [lstrip_by]. rewrite H, IH. reflexivity.
Qed.

Lemma set_ok_digit ic x : set_ok ic [ClassDigit] x = is_digit x.
Proof. destruct ic, x as [[] [] [] [] [] [] [] []]; reflexivity. Qed.

Lemma set_ok_digit_or_dash ic x :
  set_ok ic [ClassDigit; One "-"] x = digit_or_dash x.
Proof. destruct ic, x as [[] [] [] [] [] [] [] []]; reflexivity. Qed.

Lemma set_ok_separator ic x :
  set_ok ic [One ","; One "."; ClassSpace; One "-"] x = separator_char x.
Proof. destruct ic, x as [[] [] [] [] [] [] [] []]; reflexivity. Qed.

(** A starred set, with nothing after it, takes the longest run. *)
Lemma star_set_run ic items s :
  forall fuel count prev,
    String.length s < fuel ->
    repeat_loop (run ic (CharSet items)) 0 None (fun _ rest => Some rest)
      fuel count prev s
    = Some (lstrip_by (set_ok ic items) s).
Proof.
  induction s as [|x s IH]; intros fuel count prev Hf;
    (destruct fuel as [|fuel]; [simpl in Hf; lia|]).
  - reflexivity.
  - cbn [repeat_loop run lstrip_by].
    destruct (set_ok ic items x); [|reflexivity].
    assert ((String.length s <? String.length (String x s))%nat = true) as ->
      by (apply Nat.ltb_lt; simpl; lia).
    cbn [orb]. rewrite IH by (simpl in Hf; lia). reflexivity.
Qed.

Lemma star_set_match ic items p s :
  run ic (Star (CharSet items)) p s (fun _ rest => Some rest)
  = Some (lstrip_by (set_ok ic items) s).
Proof. cbn [run Star]. apply star_set_run. lia. Qed.

(** X8: the fragment [separator] never fails and takes the longest run of
    commas, periods, white space and dashes, which may be empty. *)
Theorem separator_fragment (ic : bool) (text : string) :
  match_ ic separator text = Some (lstrip_by separator_char text).
Proof.
  unfold match_, separator. rewrite star_set_match.
  f_equal. apply lstrip_by_ext, set_ok_separator.
Qed.

(** X9: the fragment [digit] matches exactly at a text that opens with
    three digits, and takes them with the longest run of digits and dashes
    that follows; with fewer than three digits in front it does not
    match. *)
Theorem digit_fragment (ic : bool) (text : string) :
  match_ ic digit text
  = match text with
    | String a (String b (String c rest)) =>
        if is_digit a && is_digit b && is_digit c
        then Some (lstrip_by digit_or_dash rest)
        else None
    | _ => None
    end.
Proof.
  unfold match_, digit. cbn [run].
  assert (Hstar : forall p s,
             run ic (Star (CharSet [ClassDigit; One "-"])) p s
               (fun _ rest => Some rest)
             = Some (lstrip_by digit_or_dash s)).
  { intros p s. rewrite star_set_match. f_equal.
    apply lstrip_by_ext, set_ok_digit_or_dash. }
  destruct text as [|a [|b [|c rest]]]; cbn [repeat_loop run Digit Nat.add String.length
    Nat.leb Nat.ltb orb andb]; rewrite ?set_ok_digit.
  - reflexivity.
  - destruct (is_digit a); reflexivity.
  - destruct (is_digit a); [|reflexivity]. cbn. rewrite ?set_ok_digit.
    destruct (is_digit b); reflexivity.
  - destruct (is_digit a); [|reflexivity]. cbn -[run lstrip_by is_digit Star].
    rewrite ?orb_true_r. cbn [run]. rewrite ?set_ok_digit.
    destruct (is_digit b); [|reflexivity]. cbn -[run lstrip_by is_digit Star].
    rewrite ?orb_true_r. cbn [run]. rewrite ?set_ok_digit.
    destruct (is_digit c); [|reflexivity]. cbn -[run lstrip_by is_digit Star].
    rewrite ?orb_true_r, Hstar. reflexivity.
Qed.

End Fragments.

(** ** Where the pattern can match *)

Section Keyword.
Import Str StrFacts Re ConstructedAm.

(** A match takes no character, or it takes a run of characters that
    opens with one the pattern can start with. *)
Lemma Matches_first ic r p s p' s' :
  Matches ic r p s p' s' ->
  (nullable r = true /\ s' = s /\ p' = p)
  \/ (exists x w, s = String x (w +:+ s') /\ starts ic r x = true).
Proof.
  induction 1 as [p s | c x p s Hc | items x p s Hc | s | p s He | p s Hb
                  | r1 r2 p s p1 s1 p2 s2 H1 IH1 H2 IH2
                  | r1 r2 p s p' s' H1 IH1 | r1 r2 p s p' s' H2 IH2
                  | hi r p s
                  | lo hi r p s p1 s1 p2 s2 Hhi H1 IH1 H2 IH2
                  | g r p s p' s' H1 IH1 | r p s p' s' H1 IH1];
    cbn [nullable starts]; auto.
  - right. exists x, EmptyString. auto.
  - right. exists x, EmptyString. auto.
  - destruct IH1 as [(N1 & -> & ->) | (x & w & -> & S1)].
    + destruct IH2 as [(N2 & -> & ->) | (x & w & -> & S2)].
      * left. rewrite N1, N2. auto.
      * right. exists x, w. rewrite N1, S2, orb_true_r. auto.
    + right. destruct IH2 as [(N2 & -> & ->) | (y & v & -> & S2)].
      * exists x, w. rewrite S1. auto.
      * exists x, (w +:+ String y v).
        rewrite app_assoc, app_cons, S1. auto.
  - destruct IH1 as [(N1 & -> & ->) | (x & w & -> & S1)].
    + left. rewrite N1. auto.
    + right. exists x, w. rewrite S1. auto.
  - destruct IH2 as [(N2 & -> & ->) | (x & w & -> & S2)].
    + left. rewrite N2, orb_true_r. auto.
    + right. exists x, w. rewrite S2, orb_true_r. auto.
  - cbn [nullable starts] in IH2.
    destruct IH1 as [(N1 & -> & ->) | (x & w & -> & S1)].
    + destruct IH2 as [(N2 & -> & ->) | (x & w & -> & S2)].
      * left. rewrite N1, orb_true_r. auto.
      * right. eauto.
    + right. destruct IH2 as [(N2 & -> & ->) | (y & v & -> & S2)].
      * eauto.
      * exists x, (w +:+ String y v). rewrite app_assoc, app_cons. auto.
Qed.

(** [search] answers with the match at the leftmost position that has
    one. *)
Lemma search_from_found ic r s :
  forall prev rest,
    search_from ic r prev s = Some rest ->
    exists pre post,
      s = pre +:+ post
      /\ run ic r (last_of prev pre) post (fun _ rest => Some rest) = Some rest
      /\ (forall u v,
             pre = u +:+ v -> v <> EmptyString ->
             run ic r (last_of prev u) (v +:+ post) (fun _ rest => Some rest)
             = None).
Proof.
  induction s as [|c s IH]; intros prev rest H; cbn [search_from] in H.
  - destruct (run ic r prev EmptyString _) as [a|] eqn:E; [|discriminate].
    inversion H; subst a. exists EmptyString, EmptyString.
    split; [reflexivity|]. split; [exact E|].
    intros [|? u] [|? v] Huv Hv; try discriminate. congruence.
  - destruct (run ic r prev (String c s) _) as [a|] eqn:E.
    + inversion H; subst a. exists EmptyString, (String c s).
      split; [reflexivity|]. split; [exact E|].
      intros [|? u] [|? v] Huv Hv; try discriminate. congruence.
    + apply IH in H as (pre & post & -> & Hr & Hleft).
      exists (String c pre), post. rewrite app_cons.
      split; [reflexivity|]. split; [exact Hr|].
      intros [|c' u] v Huv Hv.
      * rewrite app_empty_l in Huv. subst v. rewrite app_cons. exact E.
      * rewrite app_cons in Huv. inversion Huv; subst c' pre.
        cbn [last_of]. apply Hleft; [reflexivity|exact Hv].
Qed.

Lemma am_phrases_starts ic Num x :
  starts ic (am_phrases Num) x = true ->
  char_ok ic "a" x = true \/ char_ok ic "O" x = true.
Proof.
  cbn. destruct (char_ok ic "a" x), (char_ok ic "O" x); cbn; auto.
Qed.

Lemma am_phrases_not_nullable Num : nullable (am_phrases Num) = false.
Proof. reflexivity. Qed.

(** X10: the pattern of the AM category is found only where the keyword
    can open.  When [search] finds an occurrence, the text is what is in
    front of it, the occurrence and the rest; the occurrence is what the
    pattern matches at that position, it opens with a letter a or with
    the O of OCA (in either case under [re.IGNORECASE]), and the pattern
    matches at no position further to the left.  So the empty text, and
    any text without these letters, holds no occurrence. *)
Theorem am_phrases_needs_keyword (Num_AM_allowed : regex) (ic : bool)
    (text : string) :
  (forall rest,
      search ic (am_phrases Num_AM_allowed) text = Some rest ->
      exists pre x w,
        text = pre +:+ String x (w +:+ rest)
        /\ (char_ok ic "a" x = true \/ char_ok ic "O" x = true)
        /\ run ic (am_phrases Num_AM_allowed) (last_of None pre)
             (String x (w +:+ rest)) (fun _ rest => Some rest)
           = Some rest
        /\ (forall u v,
               pre = u +:+ v -> v <> EmptyString ->
               run ic (am_phrases Num_AM_allowed) (last_of None u)
                 (v +:+ String x (w +:+ rest)) (fun _ rest => Some rest)
               = None))
  /\ search ic (am_phrases Num_AM_allowed) EmptyString = None
  /\ (Str.forallb (fun x => negb (char_ok ic "a" x) && negb (char_ok ic "O" x)) text
      = true ->
      search ic (am_phrases Num_AM_allowed) text = None).
Proof.
  assert (Hfound : forall t rest,
             search ic (am_phrases Num_AM_allowed) t = Some rest ->
             exists pre x w,
               t = pre +:+ String x (w +:+ rest)
               /\ (char_ok ic "a" x = true \/ char_ok ic "O" x = true)
               /\ run ic (am_phrases Num_AM_allowed) (last_of None pre)
                    (String x (w +:+ rest)) (fun _ rest => Some rest)
                  = Some rest
               /\ (forall u v,
                      pre = u +:+ v -> v <> EmptyString ->
                      run ic (am_phrases Num_AM_allowed) (last_of None u)
                        (v +:+ String x (w +:+ rest)) (fun _ rest => Some rest)
                      = None)).
  { intros t rest H. unfold search in H.
    apply search_from_found in H as (pre & post & -> & Hr & Hleft).
    pose proof Hr as Hm.
    apply run_sound in Hm as (p' & s' & Hm & Hk). inversion Hk; subst s'.
    apply Matches_first in Hm as [(N & _) | (x & w & -> & Hs)].
    - rewrite am_phrases_not_nullable in N. discriminate.
    - exists pre, x, w. split; [reflexivity|].
      split; [apply (am_phrases_starts _ _ _ Hs)|]. split; [exact Hr|exact Hleft]. }
  split; [apply Hfound|]. split.
  - destruct (search ic (am_phrases Num_AM_allowed) EmptyString) as [rest|] eqn:E;
      [|reflexivity].
    apply Hfound in E as (pre & x & w & E & _). destruct pre; discriminate.
  - intros Hall.
    destruct (search ic (am_phrases Num_AM_allowed) text) as [rest|] eqn:E;
      [|reflexivity].
    exfalso. apply Hfound in E as (pre & x & w & -> & Hx & _).
    clear - Hall Hx. induction pre as [|c pre IH].
    + rewrite app_empty_l in Hall. cbn [Str.forallb] in Hall.
      apply andb_prop in Hall as [Hall _]. apply andb_prop in Hall as [Ha Ho].
      apply negb_true_iff in Ha, Ho. destruct Hx; congruence.
    + rewrite app_cons in Hall. cbn [Str.forallb] in Hall.
      apply andb_prop in Hall as [_ Hall]. apply IH, Hall.
Qed.

Lemma am_phrases_needs_keyword_witness :
  (exists pre x w,
      "see A.M. No. P-88-198, February 25, 1992"
      = pre +:+ String x (w +:+ "February 25, 1992")
      /\ (char_ok true "a" x = true \/ char_ok true "O" x = true)
      /\ run true (am_phrases Num_AM_sample) (last_of None pre)
           (String x (w +:+ "February 25, 1992")) (fun _ rest => Some rest)
         = Some "February 25, 1992"
      /\ (forall u v,
             pre = u +:+ v -> v <> EmptyString ->
             run true (am_phrases Num_AM_sample) (last_of None u)
               (v +:+ String x (w +:+ "February 25, 1992"))
               (fun _ rest => Some rest)
             = None))
  /\ search true (am_phrases Num_AM_sample) "UDK-15143, June 2, 2013" = None.
Proof.
  destruct (am_phrases_needs_keyword Num_AM_sample true
              "see A.M. No. P-88-198, February 25, 1992") as (Hfound & _ & _).
  destruct (am_phrases_needs_keyword Num_AM_sample true
              "UDK-15143, June 2, 2013") as (_ & _ & Hnone).
  split.
  - apply (Hfound "February 25, 1992"). vm_compute. reflexivity.
  - apply Hnone. vm_compute. reflexivity.
Defined.

End Keyword.

(** ** The two shapes of a serial token *)

Section Middle.
Import Str StrFacts Re ConstructedAm.

Lemma Rounds_app ic r n m :
  forall p s p1 s1 p2 s2,
    Rounds ic n r p s p1 s1 -> Rounds ic m r p1 s1 p2 s2 ->
    Rounds ic (n + m) r p s p2 s2.
Proof.
  induction n as [|n IH]; intros p s p1 s1 p2 s2 H1 H2.
  - destruct H1 as [-> ->]. exact H2.
  - destruct H1 as (q & t & Hm & Hr). exists q, t. split; [exact Hm|].
    eapply IH; eassumption.
Qed.

Lemma Rounds_mono ic r1 r2 n :
  (forall p s p' s', Matches ic r1 p s p' s' -> Matches ic r2 p s p' s') ->
  forall p s p' s', Rounds ic n r1 p s p' s' -> Rounds ic n r2 p s p' s'.
Proof.
  intros Hsub. induction n as [|n IH]; intros p s p' s' H; [exact H|].
  destruct H as (q & t & Hm & Hr). exists q, t. split; [apply Hsub, Hm|apply IH, Hr].
Qed.

(** A repeat without upper bound matches what a number of rounds past its
    lower bound matches. *)
Lemma Matches_repeat_unbounded ic r :
  forall lo p s p' s',
    Matches ic (Repeat lo None r) p s p' s'
    <-> exists n, lo <= n /\ Rounds ic n r p s p' s'.
Proof.
  intros lo p s p' s'. split.
  - intros H. remember (Repeat lo None r) as R eqn:ER. revert lo ER.
    induction H as [| | | | | | | | | hi r0 p s
                    | lo0 hi r0 p s p1 s1 p2 s2 Hhi H1 _ H2 IH2 | |];
      intros lo ER; inversion ER; subst.
    + exists 0. simpl. split; [lia|auto].
    + destruct (IH2 (pred lo) eq_refl) as (n & Hn & Hr).
      exists (S n). split; [lia|]. simpl. eauto.
  - intros (n & Hn & Hr). revert lo p s Hn Hr.
    induction n as [|n IH]; intros lo p s Hn Hr.
    + assert (lo = 0) as -> by lia. destruct Hr as [-> ->]. constructor.
    + destruct Hr as (q & t & Hm & Hr).
      eapply M_RepeatRound; [discriminate|exact Hm|].
      apply IH; [lia|exact Hr].
Qed.

Lemma Matches_digit_in_set ic p s p' s' :
  Matches ic Digit p s p' s' ->
  Matches ic (CharSet [ClassDigit; One "-"]) p s p' s'.
Proof.
  intros H. inversion H as [| |items x q t Hx| | | | | | | | | |]; subst.
  constructor. rewrite set_ok_digit in Hx.
  rewrite set_ok_digit_or_dash. unfold digit_or_dash. rewrite Hx. reflexivity.
Qed.

(** X11: whatever the fragment [digit] matches, the fragment [letter]
    matches too: [letter] asks for three or more digits or dashes, with no
    acronym and no digit required.  So in [am_middle], where [letter] is
    tried first, the alternative [digit] adds no text of its own. *)
Theorem digit_within_letter (ic : bool) (p : option ascii) (s : string)
    (p' : option ascii) (s' : string) :
  Matches ic digit p s p' s' -> Matches ic letter p s p' s'.
Proof.
  intros H. unfold digit in H.
  inversion H as [| | | | | |r1 r2 q t p1 s1 p2 s2 H3 Hstar| | | | | |]; subst.
  apply Matches_repeat in H3 as (n & Hn & H3).
  apply Matches_repeat_unbounded in Hstar as (m & _ & Hstar).
  apply (Rounds_mono ic Digit (CharSet [ClassDigit; One "-"]) n
           (Matches_digit_in_set ic)) in H3.
  pose proof (Rounds_app _ _ _ _ _ _ _ _ _ _ H3 Hstar) as Hall.
  unfold letter. cbn [seqs].
  eapply M_Seq; [apply M_RepeatStop|].
  eapply M_Seq; [|apply M_RepeatStop].
  apply Matches_repeat_unbounded. exists (n + m). split; [lia|exact Hall].
Qed.

Lemma digit_within_letter_witness :
  Matches true letter None "323-23, 1992" (Some "3"%char) ", 1992".
Proof.
  apply digit_within_letter. unfold digit.
  eapply M_Seq.
  - apply Matches_repeat. exists 3. split; [lia|].
    exists (Some "3"%char), "23-23, 1992". split; [constructor; reflexivity|].
    exists (Some "2"%char), "3-23, 1992". split; [constructor; reflexivity|].
    exists (Some "3"%char), "-23, 1992". split; [constructor; reflexivity|].
    split; reflexivity.
  - apply Matches_repeat_unbounded. exists 3. split; [lia|].
    exists (Some "-"%char), "23, 1992". split; [constructor; reflexivity|].
    exists (Some "2"%char), "3, 1992". split; [constructor; reflexivity|].
    exists (Some "3"%char), ", 1992". split; [constructor; reflexivity|].
    split; reflexivity.
Defined.

End Middle.

(** ** The optional clauses *)

Section Optional.
Import Str StrFacts Re ConstructedAm.

Lemma is_Some_orelse {A : Type} (o d : option A) :
  is_Some (match o with Some a => Some a | None => d end)
  <-> is_Some o \/ is_Some d.
Proof.
  destruct o as [a|]; split; intros H.
  - left. exact H.
  - eexists. reflexivity.
  - right. exact H.
  - destruct H as [[? H]|H]; [discriminate|exact H].
Qed.

Section Success.
Variable ic : bool.

(** Whether the matcher succeeds depends on the rest of the pattern only
    through where the rest succeeds. *)
Lemma repeat_loop_cong (step : option ascii -> string -> @cont string -> option string)
    lo hi (k k' : @cont string) :
  (forall p s K K',
      (forall q t, is_Some (K q t) <-> is_Some (K' q t)) ->
      is_Some (step p s K) <-> is_Some (step p s K')) ->
  (forall p s, is_Some (k p s) <-> is_Some (k' p s)) ->
  forall fuel count p s,
    is_Some (repeat_loop step lo hi k fuel count p s)
    <-> is_Some (repeat_loop step lo hi k' fuel count p s).
Proof.
  intros Hstep Hk.
  assert (Hstop : forall count p s,
             is_Some (if (lo <=? count)%nat then k p s else None)
             <-> is_Some (if (lo <=? count)%nat then k' p s else None)).
  { intros count p s. destruct (lo <=? count)%nat; [apply Hk|tauto]. }
  induction fuel as [|fuel IH]; intros count p s; cbn [repeat_loop]; [apply Hstop|].
  destruct (match hi with Some h => (h <=? count)%nat | None => false end);
    [apply Hstop|].
  rewrite !is_Some_orelse.
  rewrite (Hstep p s _ (fun prev' s' =>
             if (String.length s' <? String.length s)%nat || (count <? lo)%nat
             then repeat_loop step lo hi k' fuel (S count) prev' s' else None)).
  - rewrite Hstop. tauto.
  - intros q t. destruct (_ || _); [apply IH|tauto].
Qed.

Lemma run_cong r :
  forall (k k' : @cont string),
    (forall p s, is_Some (k p s) <-> is_Some (k' p s)) ->
    forall p s, is_Some (run ic r p s k) <-> is_Some (run ic r p s k').
Proof.
  induction r as [| c | items | | | | r1 IH1 r2 IH2 | r1 IH1 r2 IH2
                 | lo hi r IH | g r IH | r IH]; intros k k' Hk p s; cbn [run].
  - apply Hk.
  - destruct s as [|x s]; [tauto|]. destruct (char_ok ic c x); [apply Hk|tauto].
  - destruct s as [|x s]; [tauto|]. destruct (set_ok ic items x); [apply Hk|tauto].
  - destruct p; [tauto|apply Hk].
  - destruct (at_eol s); [apply Hk|tauto].
  - destruct (xorb _ _); [apply Hk|tauto].
  - apply IH1. intros q t. apply IH2, Hk.
  - rewrite !is_Some_orelse, (IH1 k k' Hk), (IH2 k k' Hk). tauto.
  - apply repeat_loop_cong; [|exact Hk]. intros q t K K' HK. apply IH, HK.
  - apply IH, Hk.
  - apply IH, Hk.
Qed.

Lemma repeat_loop_past_lo (step : option ascii -> string -> @cont string -> option string)
    lo hi (k : @cont string) :
  (forall p s, is_Some (k p s)) ->
  forall fuel count p s,
    lo <= count -> is_Some (repeat_loop step lo hi k fuel count p s).
Proof.
  intros Hk fuel count p s Hc.
  assert (is_Some (if (lo <=? count)%nat then k p s else None)) as Hstop.
  { apply Nat.leb_le in Hc. rewrite Hc. apply Hk. }
  destruct fuel as [|fuel]; cbn [repeat_loop]; [exact Hstop|].
  destruct (match hi with Some h => (h <=? count)%nat | None => false end);
    [exact Hstop|].
  apply is_Some_orelse. right. exact Hstop.
Qed.

Lemma run_always r :
  always_matches r = true ->
  forall k : @cont string,
    (forall p s, is_Some (k p s)) -> forall p s, is_Some (run ic r p s k).
Proof.
  induction r as [| c | items | | | | r1 IH1 r2 IH2 | r1 IH1 r2 IH2
                 | lo hi r IH | g r IH | r IH]; cbn [always_matches];
    intros Ha k Hk p s; try discriminate; cbn [run].
  - apply Hk.
  - apply andb_prop in Ha as [A1 A2]. apply IH1; [exact A1|].
    intros q t. apply IH2; [exact A2|exact Hk].
  - apply is_Some_orelse. apply orb_prop in Ha as [A|A].
    + left. apply IH1; assumption.
    + right. apply IH2; assumption.
  - apply Nat.eqb_eq in Ha. subst lo. apply repeat_loop_past_lo; [exact Hk|lia].
  - apply IH; assumption.
  - apply IH; assumption.
Qed.

Lemma repeat_loop_S (step : option ascii -> string -> @cont string -> option string)
    lo hi (k : @cont string) fuel count p s :
  repeat_loop step lo hi k (S fuel) count p s
  = if match hi with Some h => (h <=? count)%nat | None => false end
    then (if (lo <=? count)%nat then k p s else None)
    else
      match
        step p s (fun prev' s' =>
          if (String.length s' <? String.length s)%nat || (count <? lo)%nat
          then repeat_loop step lo hi k fuel (S count) prev' s'
          else None)
      with
      | Some a => Some a
      | None => if (lo <=? count)%nat then k p s else None
      end.
Proof. reflexivity. Qed.

Lemma rounds_of_optional_succeed Num p s :
  is_Some (run ic (Repeat 1 (Some 3) (Group None (optional Num))) p s
             (fun _ rest => Some rest)).
Proof.
  cbn [run]. change (1 + S (String.length s)) with (S (S (String.length s))).
  rewrite repeat_loop_S. change (3 <=? 0)%nat with false. cbv iota.
  apply is_Some_orelse. left.
  apply (run_always (optional Num)); [reflexivity|].
  intros q t. change (0 <? 1)%nat with true. rewrite orb_true_r.
  apply repeat_loop_past_lo; [|lia]. intros; eexists; reflexivity.
Qed.

Lemma am_phrases_run_required Num p s :
  is_Some (run ic (am_phrases Num) p s (fun _ rest => Some rest))
  <-> is_Some (run ic (required Num) p s (fun _ rest => Some rest)).
Proof.
  unfold am_phrases. cbn [run]. apply run_cong. intros q t.
  pose proof (rounds_of_optional_succeed Num q t) as H. cbn [run] in H.
  split; intros _; [eexists; reflexivity|exact H].
Qed.
End Success.

Lemma search_from_cong ic r1 r2 :
  (forall p s, is_Some (run ic r1 p s (fun _ rest => Some rest))
               <-> is_Some (run ic r2 p s (fun _ rest => Some rest))) ->
  forall s p, is_Some (search_from ic r1 p s) <-> is_Some (search_from ic r2 p s).
Proof.
  intros H. induction s as [|c s IH]; intros p; cbn [search_from];
    rewrite !is_Some_orelse, H.
  - tauto.
  - rewrite IH. tauto.
Qed.

(** X12: the optional clause can match nothing at all, so the repetition
    after the required clause never makes a phrase fail: the pattern of
    the AM category matches, at the start of a text or anywhere in it,
    exactly where its required clause alone matches. *)
Theorem am_phrases_matches_where_required (Num_AM_allowed : regex) (ic : bool)
    (text : string) :
  always_matches (optional Num_AM_allowed) = true
  /\ (is_Some (match_ ic (am_phrases Num_AM_allowed) text)
      <-> is_Some (match_ ic (required Num_AM_allowed) text))
  /\ (is_Some (search ic (am_phrases Num_AM_allowed) text)
      <-> is_Some (search ic (required Num_AM_allowed) text)).
Proof.
  split; [reflexivity|]. split.
  - apply am_phrases_run_required.
  - apply search_from_cong. intros p s. apply am_phrases_run_required.
Qed.

End Optional.
